(** * The PokeAPI extract-load-transform pipeline

    A shallow embedding of [lab-m1w1.py] and [solutions.py]: the two
    scripts page through the PokeAPI listing, write every page to a
    Parquet file, load the files into the DuckDB table [pokedex], keep a
    checkpoint in the table [metadata] and summarise [pokedex] into
    [pokemon_stats].

    The DuckDB file, the working directory, the requests sent and the
    console make up the [world] that every function threads; a Python
    exception is an [Err] result next to the world as the exception left
    it. *)

From Stdlib Require Import ZArith Ascii String Decimal DecimalFacts DecimalPos
  DecimalString DecimalZ.
From stdpp Require Import base option list gmap strings.

Local Open Scope Z_scope.

(** ** Python strings of integers *)

Module Py.

(** [str(n)] for an [int]: decimal digits, a leading [-] when negative. *)
Definition str (n : Z) : string := NilZero.string_of_int (Z.to_int n).

Fixpoint zeros (k : nat) : string :=
  match k with
  | O => EmptyString
  | S k' => String "0" (zeros k')
  end.

Definition is_sign (c : ascii) : bool :=
  (Ascii.eqb c "+" || Ascii.eqb c "-")%bool.

(** [s.zfill(width)]: a string already [width] long or longer is returned
    as it is; otherwise zeros are put in front, after the sign when the
    string starts with one. *)
Definition zfill (width : nat) (s : string) : string :=
  if (width <=? String.length s)%nat then s
  else
    let fill := zeros (width - String.length s) in
    match s with
    | String c rest => if is_sign c then String c (fill +:+ rest) else fill +:+ s
    | EmptyString => fill
    end.

(** [s[:n]] on a list, used for [head()] and [LIMIT]. *)
Definition head {A} (n : nat) (l : list A) : list A := take n l.

End Py.

(** ** Data model *)

(** One object of the [results] list of the listing, and one row of the
    Parquet file written from it.  A JSON [null], and so a NULL of the
    column, is [None]. *)
Record record := { name : option string; url : option string }.

(** [pokedex (last_id INTEGER, pokemon_id INTEGER, name TEXT, url TEXT)];
    no column is declared [NOT NULL]. *)
Record pokedex_row := {
  pokedex_last_id : option Z;
  pokemon_id : option Z;
  pokedex_name : option string;
  pokedex_url : option string
}.

(** [pokemon_stats (total_pokemon BIGINT, first_id INTEGER, last_id INTEGER)]. *)
Record stats_row := {
  total_pokemon : Z;
  first_id : option Z;
  last_id : option Z
}.

(** The file [pokedex.duckdb]; [None] is a table that does not exist.
    [metadata] has the single column [last_id INTEGER]. *)
Record database := {
  metadata : option (list (option Z));
  pokedex : option (list pokedex_row);
  pokemon_stats : option (list stats_row)
}.

(** What the scripts print, without the wording of the messages. *)
Inductive event :=
| getting_data (request : string)
| failed_to_fetch
| preview_extracted (rows : list record)
| saved_to (file_path : string)
| preview_loaded (rows : list pokedex_row)
| data_loaded
| preview_transformed (rows : list stats_row)
| progress.

(** [files] are the Parquet files of the working directory under their
    names.  [glob] is how the directory answers a path that is not the
    plain name of a file (a pattern, another spelling of a path): the
    names of the files it stands for, given the names there are.  No
    function of the scripts changes it. *)
Record world := {
  db : database;
  files : gmap string (list record);
  glob : gset string → string → list string;
  requests : list string;
  console : list event
}.

Definition set_db (d : database) (w : world) : world :=
  {| db := d; files := files w; glob := glob w; requests := requests w;
     console := console w |}.

Definition set_metadata (m : list (option Z)) (d : database) : database :=
  {| metadata := Some m; pokedex := pokedex d; pokemon_stats := pokemon_stats d |}.

Definition set_pokedex (p : list pokedex_row) (d : database) : database :=
  {| metadata := metadata d; pokedex := Some p; pokemon_stats := pokemon_stats d |}.

Definition set_pokemon_stats (s : list stats_row) (d : database) : database :=
  {| metadata := metadata d; pokedex := pokedex d; pokemon_stats := Some s |}.

Definition empty_database : database :=
  {| metadata := None; pokedex := None; pokemon_stats := None |}.

(** A directory in which only plain names stand for files. *)
Definition no_glob : gset string → string → list string := λ _ _, [].

Definition fresh_world : world :=
  {| db := empty_database; files := ∅; glob := no_glob; requests := [];
     console := [] |}.

(** ** Exceptions and the state they leave *)

Inductive error :=
| RequestException
| InvalidInputException
| IOException
| CatalogException
| ConversionException.

Inductive result (A : Type) :=
| Ok (a : A)
| Err (e : error).
Arguments Ok {A} a.
Arguments Err {A} e.

Definition M (A : Type) : Type := world → world * result A.

Definition ret {A} (a : A) : M A := λ w, (w, Ok a).

Definition bind {A B} (m : M A) (k : A → M B) : M B :=
  λ w, match m w with
       | (w', Ok a) => k a w'
       | (w', Err e) => (w', Err e)
       end.

Definition raise {A} (e : error) : M A := λ w, (w, Err e).

(** [try: m except e: h e] *)
Definition try_except {A} (m : M A) (h : error → M A) : M A :=
  λ w, match m w with
       | (w', Ok a) => (w', Ok a)
       | (w', Err e) => h e w'
       end.

Declare Scope py_scope.
Delimit Scope py_scope with py.
Notation "x <- m ;; k" := (bind m (λ x, k))
  (at level 100, m at next level, right associativity) : py_scope.
Notation "m ;; k" := (bind m (λ _, k))
  (at level 100, right associativity) : py_scope.
Local Open Scope py_scope.

Definition print (e : event) : M unit :=
  λ w, ({| db := db w; files := files w; glob := glob w; requests := requests w;
           console := console w ++ [e] |}, Ok tt).

(** ** The DuckDB statements the scripts execute *)

Module DuckDB.

(** *** [regexp_extract(url, '/pokemon/(\d+)/', 1)] *)

(** [\d]: an ASCII digit. *)
Definition is_digit (c : ascii) : bool :=
  let n := nat_of_ascii c in ((48 <=? n) && (n <=? 57))%nat.

(** The longest run of digits at the start of [s], and what follows. *)
Fixpoint span_digits (s : string) : string * string :=
  match s with
  | String c s' =>
      if is_digit c then let (d, r) := span_digits s' in (String c d, r)
      else (EmptyString, s)
  | EmptyString => (EmptyString, EmptyString)
  end.

(** What is left of [s] after the literal [p], when [s] starts with it. *)
Fixpoint strip_prefix (p s : string) : option string :=
  match p, s with
  | EmptyString, _ => Some s
  | String a p', String b s' => if Ascii.eqb a b then strip_prefix p' s' else None
  | String _ _, EmptyString => None
  end.

(** A match of the pattern that starts at the first character: the
    literal, then [\d+], greedy, then a slash.  A shorter run of digits
    is followed by a digit, so only the longest run can be followed by
    the slash. *)
Definition match_here (s : string) : option string :=
  match strip_prefix "/pokemon/" s with
  | Some r =>
      match span_digits r with
      | (String c d, String "/" _) => Some (String c d)
      | _ => None
      end
  | None => None
  end.

(** The first capture group of the leftmost match. *)
Fixpoint regexp_capture (s : string) : option string :=
  match match_here s with
  | Some d => Some d
  | None =>
      match s with
      | String _ s' => regexp_capture s'
      | EmptyString => None
      end
  end.

(** [regexp_extract] returns the empty string when nothing matches. *)
Definition regexp_extract (s : string) : string :=
  default EmptyString (regexp_capture s).

(** *** Casts to [INTEGER] *)

Definition INT32_MIN : Z := -2147483648.
Definition INT32_MAX : Z := 2147483647.

(** A bound parameter that is a Python [int]: out of range is a
    conversion error, there is no wrap-around. *)
Definition cast_integer (n : Z) : option Z :=
  if ((INT32_MIN <=? n) && (n <=? INT32_MAX))%bool then Some n else None.

Fixpoint digits_acc (acc : Z) (s : string) : option Z :=
  match s with
  | EmptyString => Some acc
  | String c s' =>
      if is_digit c then digits_acc (10 * acc + (Z.of_nat (nat_of_ascii c) - 48)) s'
      else None
  end.

(** [CAST(s AS INTEGER)] on what [regexp_extract] returns here, the empty
    string or a run of digits: the empty string does not convert, digits
    convert to their decimal value when it fits in 32 bits.  (Signs,
    blanks and fractions, which the cast also reads, never come out of
    the capture group.) *)
Definition cast_varchar_integer (s : string) : option Z :=
  match s with
  | EmptyString => None
  | _ => n ← digits_acc 0 s; cast_integer n
  end.

(** *** Aggregates *)

(** [MAX] and [MIN] skip NULL and are NULL over no value at all. *)
Definition max2 (a b : option Z) : option Z :=
  match a, b with
  | Some x, Some y => Some (Z.max x y)
  | Some x, None => Some x
  | None, _ => b
  end.

Definition min2 (a b : option Z) : option Z :=
  match a, b with
  | Some x, Some y => Some (Z.min x y)
  | Some x, None => Some x
  | None, _ => b
  end.

Definition MAX (col : list (option Z)) : option Z := foldr max2 None col.
Definition MIN (col : list (option Z)) : option Z := foldr min2 None col.
Definition COUNT {A} (rows : list A) : Z := Z.of_nat (length rows).
Definition COALESCE (v : option Z) (d : Z) : Z := default d v.

(** *** Statements *)

(** A statement either commits or raises and leaves the database as it was. *)
Definition statement {A} (f : database → result (database * A)) : M A :=
  λ w, match f (db w) with
       | Ok (d, a) => (set_db d w, Ok a)
       | Err e => (w, Err e)
       end.

(** [CREATE TABLE IF NOT EXISTS metadata (last_id INTEGER)] *)
Definition create_table_metadata : M unit :=
  statement (λ d, match metadata d with
                  | Some _ => Ok (d, tt)
                  | None => Ok (set_metadata [] d, tt)
                  end).

(** [SELECT COALESCE(MAX(last_id), 0) FROM metadata], [fetchone()[0]] *)
Definition select_coalesce_max_last_id : M Z :=
  statement (λ d, match metadata d with
                  | Some col => Ok (d, COALESCE (MAX col) 0)
                  | None => Err CatalogException
                  end).

(** [CREATE TABLE IF NOT EXISTS pokedex (...)] *)
Definition create_table_pokedex : M unit :=
  statement (λ d, match pokedex d with
                  | Some _ => Ok (d, tt)
                  | None => Ok (set_pokedex [] d, tt)
                  end).

(** [CAST(regexp_extract(url, ...) AS INTEGER)] of one row: both
    functions are NULL on NULL, without an error; the outer [None] is the
    conversion error. *)
Definition cast_regexp_extract (url : option string) : option (option Z) :=
  match url with
  | None => Some None
  | Some u => Some <$> cast_varchar_integer (regexp_extract u)
  end.

(** One row of
    [SELECT ?, CAST(regexp_extract(url, ...) AS INTEGER), name, url]. *)
Definition select_row (new_last_id : Z) (r : record) : option pokedex_row :=
  tag ← cast_integer new_last_id;
  id ← cast_regexp_extract (url r);
  Some {| pokedex_last_id := Some tag; pokemon_id := id;
          pokedex_name := name r; pokedex_url := url r |}.

(** *** Paths *)

Definition is_lower (c : ascii) : bool :=
  let n := nat_of_ascii c in ((97 <=? n)%nat && (n <=? 122)%nat)%bool.

Definition name_char (c : ascii) : bool :=
  (is_lower c || is_digit c
   || Ascii.eqb c "_" || Ascii.eqb c "." || Ascii.eqb c "-")%bool.

Fixpoint name_chars (s : string) : bool :=
  match s with
  | EmptyString => true
  | String c s' => (name_char c && name_chars s')%bool
  end.

(** A path that is the name of a file of the working directory and
    nothing else: no separator, no pattern character, no scheme, not the
    directory itself. *)
Definition literal_name (path : string) : bool :=
  match path with
  | EmptyString => false
  | String c _ => (is_lower c && name_chars path)%bool
  end.

(** [read_parquet(path)]: the rows of the file of that name; for any
    other path the rows of the files the directory finds for it, one
    after the other.  [None] when there is no such file. *)
Definition read_parquet (glob : gset string → string → list string)
    (files : gmap string (list record)) (path : string) : option (list record) :=
  if literal_name path then files !! path
  else match glob (dom files) path with
       | [] => None
       | names => tables ← mapM (λ n, files !! n) names; Some (concat tables)
       end.

Arguments read_parquet : simpl never.

(** [INSERT INTO pokedex SELECT ... FROM read_parquet(?)] with
    [[new_last_id, file_path]]: one row that does not convert fails the
    whole statement. *)
Definition insert_into_pokedex (new_last_id : Z) (file_path : string) : M unit :=
  λ w, match pokedex (db w), read_parquet (glob w) (files w) file_path with
       | None, _ => (w, Err CatalogException)
       | Some _, None => (w, Err IOException)
       | Some rows, Some tbl =>
           match mapM (select_row new_last_id) tbl with
           | Some new => (set_db (set_pokedex (rows ++ new) (db w)) w, Ok tt)
           | None => (w, Err ConversionException)
           end
       end.

Definition last_id_is (v : Z) (r : pokedex_row) : bool :=
  match pokedex_last_id r with
  | Some x => x =? v
  | None => false
  end.

(** [SELECT * FROM pokedex WHERE last_id = ? LIMIT n], [fetchdf()] *)
Definition select_pokedex_where_last_id (new_last_id : Z) (n : nat)
  : M (list pokedex_row) :=
  statement (λ d, match pokedex d with
                  | Some rows => Ok (d, Py.head n (filter (λ r, last_id_is new_last_id r = true) rows))
                  | None => Err CatalogException
                  end).

(** [UPDATE metadata SET last_id = ? WHERE last_id IS NOT NULL] *)
Definition update_metadata (new_last_id : Z) : M unit :=
  statement (λ d, match metadata d with
                  | Some col =>
                      match mapM (λ v : option Z, match v with
                                       | Some _ => Some <$> cast_integer new_last_id
                                       | None => Some None
                                       end) col with
                      | Some col' => Ok (set_metadata col' d, tt)
                      | None => Err ConversionException
                      end
                  | None => Err CatalogException
                  end).

(** [SELECT COUNT( * ) FROM metadata], [fetchone()[0]] *)
Definition count_metadata : M Z :=
  statement (λ d, match metadata d with
                  | Some col => Ok (d, COUNT col)
                  | None => Err CatalogException
                  end).

(** [INSERT INTO metadata VALUES (?)] *)
Definition insert_into_metadata (new_last_id : Z) : M unit :=
  statement (λ d, match metadata d with
                  | Some col =>
                      match cast_integer new_last_id with
                      | Some v => Ok (set_metadata (col ++ [Some v]) d, tt)
                      | None => Err ConversionException
                      end
                  | None => Err CatalogException
                  end).

(** [CREATE OR REPLACE TABLE pokemon_stats AS
     SELECT COUNT( * ), MIN(pokemon_id), MAX(pokemon_id) FROM pokedex]:
    an aggregate without [GROUP BY] yields one row, also over no row. *)
Definition create_or_replace_pokemon_stats : M unit :=
  statement (λ d, match pokedex d with
                  | Some rows =>
                      Ok (set_pokemon_stats
                            [ {| total_pokemon := COUNT rows;
                                 first_id := MIN (pokemon_id <$> rows);
                                 last_id := MAX (pokemon_id <$> rows) |} ] d, tt)
                  | None => Err CatalogException
                  end).

(** [SELECT * FROM pokemon_stats], [fetchdf()] *)
Definition select_pokemon_stats : M (list stats_row) :=
  statement (λ d, match pokemon_stats d with
                  | Some rows => Ok (d, rows)
                  | None => Err CatalogException
                  end).

(** [duckdb.from_df(pd.DataFrame(results)).to_arrow_table()]: a listing
    without results makes a DataFrame without columns, which DuckDB
    refuses. *)
Definition from_df (results : list record) : M (list record) :=
  match results with
  | [] => raise InvalidInputException
  | _ => ret results
  end.

(** [duckdb.from_arrow(table).write_parquet(file_path)] *)
Definition write_parquet (file_path : string) (table : list record) : M unit :=
  λ w, ({| db := db w; files := <[file_path := table]> (files w);
           glob := glob w; requests := requests w; console := console w |}, Ok tt).

End DuckDB.

(** ** The listing service *)

(** What the service answers to a GET, given the requests made before:
    [None] when [requests.get] or [raise_for_status] raises, otherwise
    the [results] of the JSON body. *)
Definition service : Type := list string → string → option (list record).

(** [response = requests.get(url, timeout=10); response.raise_for_status();
    response.json()["results"]] *)
Definition requests_get (api : service) (request : string) : M (list record) :=
  λ w, let w' := {| db := db w; files := files w; glob := glob w;
                    requests := requests w ++ [request]; console := console w |} in
       match api (requests w) request with
       | Some results => (w', Ok results)
       | None => (w', Err RequestException)
       end.

(** ** lab-m1w1.py *)

Module Lab.
Section Pipeline.
Variable api : service.

Definition extract_data (limit : Z) (last_id : option Z) : M (string * Z) :=
  DuckDB.create_table_metadata ;;
  last_id <- match last_id with
             | None => DuckDB.select_coalesce_max_last_id
             | Some v => ret v
             end ;;
  let url := "https://pokeapi.co/api/v2/pokemon?limit=" +:+ Py.str limit
             +:+ "&offset=" +:+ Py.str last_id in
  print (getting_data url) ;;
  data <- try_except (requests_get api url)
            (λ e, print failed_to_fetch ;; raise e) ;;
  table <- DuckDB.from_df data ;;
  print (preview_extracted (Py.head 5 table)) ;;
  let file_path := "pokedex_" +:+ Py.zfill 3 (Py.str last_id) +:+ ".parquet" in
  DuckDB.write_parquet file_path table ;;
  print (saved_to file_path) ;;
  ret (file_path, last_id + limit).

Definition load_data (file_path : string) (new_last_id : Z) : M unit :=
  DuckDB.create_table_pokedex ;;
  DuckDB.insert_into_pokedex new_last_id file_path ;;
  preview_df <- DuckDB.select_pokedex_where_last_id new_last_id 3 ;;
  print (preview_loaded preview_df) ;;
  DuckDB.update_metadata new_last_id ;;
  n <- DuckDB.count_metadata ;;
  (if n =? 0 then DuckDB.insert_into_metadata new_last_id else ret tt) ;;
  print data_loaded.

Definition transform_data : M unit :=
  DuckDB.create_or_replace_pokemon_stats ;;
  df <- DuckDB.select_pokemon_stats ;;
  print (preview_transformed df).

Definition main : M unit :=
  print progress ;;
  r1 <- extract_data 30 None ;;
  let '(file_path_1, new_last_id_1) := r1 in
  r2 <- extract_data 30 (Some new_last_id_1) ;;
  let '(file_path_2, new_last_id_2) := r2 in
  print progress ;;
  load_data file_path_1 new_last_id_1 ;;
  load_data file_path_2 new_last_id_2 ;;
  print progress ;;
  transform_data ;;
  print progress.

End Pipeline.
End Lab.

(** ** solutions.py *)

Module Solutions.
Section Pipeline.
Variable api : service.

Definition extract_data (limit : Z) (last_id : option Z) : M (string * Z) :=
  DuckDB.create_table_metadata ;;
  last_id <- match last_id with
             | None => DuckDB.select_coalesce_max_last_id
             | Some v => ret v
             end ;;
  let offset := last_id in
  let url := "https://pokeapi.co/api/v2/pokemon?limit=" +:+ Py.str limit
             +:+ "&offset=" +:+ Py.str offset in
  print (getting_data url) ;;
  data <- try_except (requests_get api url)
            (λ e, print failed_to_fetch ;; raise e) ;;
  table <- DuckDB.from_df data ;;
  print (preview_extracted (Py.head 5 table)) ;;
  let file_path := "pokedex_" +:+ Py.zfill 10 (Py.str last_id) +:+ ".parquet" in
  DuckDB.write_parquet file_path table ;;
  print (saved_to file_path) ;;
  ret (file_path, last_id + limit).

Definition load_data (file_path : string) (new_last_id : Z) : M unit :=
  DuckDB.create_table_pokedex ;;
  DuckDB.insert_into_pokedex new_last_id file_path ;;
  preview_df <- DuckDB.select_pokedex_where_last_id new_last_id 5 ;;
  print (preview_loaded preview_df) ;;
  DuckDB.update_metadata new_last_id ;;
  result <- DuckDB.count_metadata ;;
  (if result =? 0 then DuckDB.insert_into_metadata new_last_id else ret tt) ;;
  print data_loaded.

Definition transform_data : M string :=
  DuckDB.create_or_replace_pokemon_stats ;;
  df <- DuckDB.select_pokemon_stats ;;
  print (preview_transformed df) ;;
  ret "pokemon_stats".

Definition main : M unit :=
  print progress ;;
  r1 <- extract_data 10 None ;;
  let '(file_path_1, new_last_id_1) := r1 in
  print progress ;;
  r2 <- extract_data 10 (Some new_last_id_1) ;;
  let '(file_path_2, new_last_id_2) := r2 in
  print progress ;;
  load_data file_path_1 new_last_id_1 ;;
  load_data file_path_2 new_last_id_2 ;;
  print progress ;;
  transform_data ;;
  print progress.

End Pipeline.
End Solutions.

(** A listing of three records, served two and then one; later requests
    find nothing left. *)
Definition bulbasaur : record :=
  {| name := Some "bulbasaur"; url := Some "https://pokeapi.co/api/v2/pokemon/1/" |}.
Definition ivysaur : record :=
  {| name := Some "ivysaur"; url := Some "https://pokeapi.co/api/v2/pokemon/2/" |}.
Definition venusaur : record :=
  {| name := Some "venusaur"; url := Some "https://pokeapi.co/api/v2/pokemon/3/" |}.
Definition sample_api : service :=
  λ earlier _, match earlier with
               | [] => Some [bulbasaur; ivysaur]
               | [_] => Some [venusaur]
               | _ => Some []
               end.

(** * Statements

    What the properties below speak of: observations of a world, the
    pattern said without the matcher, the worlds of the examples, and
    the claims that fail, as they are written. *)

(** What a world keeps besides the database. *)
Definition same_outside_db (w w' : world) : Prop :=
  files w' = files w ∧ requests w' = requests w ∧ glob w' = glob w.

(** What [read_parquet] finds for a path in a world. *)
Definition read_file (w : world) (path : string) : option (list record) :=
  DuckDB.read_parquet (glob w) (files w) path.

(** The rows of [metadata]; a table that does not exist holds none. *)
Definition checkpoint_rows (d : database) : list (option Z) :=
  default [] (metadata d).

(** The value of the checkpoint: what
    [SELECT COALESCE(MAX(last_id), 0) FROM metadata] yields. *)
Definition checkpoint_value (d : database) : Z :=
  DuckDB.COALESCE (DuckDB.MAX (checkpoint_rows d)) 0.

(** The read at the start of [extract_data] when [last_id] is [None]. *)
Definition read_checkpoint : M Z :=
  DuckDB.create_table_metadata ;; DuckDB.select_coalesce_max_last_id.

(** The column [last_id] of [metadata] after the two statements that
    write the checkpoint, when they succeed. *)
Definition metadata_written (B : Z) (col : list (option Z)) : list (option Z) :=
  match col with
  | [] => [Some B]
  | _ => (λ v : option Z, (λ _, B) <$> v) <$> col
  end.

(** A call of [load_data] that returns: the rows of the file, converted,
    are behind the rows [pokedex] had, and the checkpoint is written. *)
Definition load_effect (w w' : world) (f : string) (B : Z) : Prop :=
  ∃ tbl new col,
    read_file w f = Some tbl ∧
    mapM (DuckDB.select_row B) tbl = Some new ∧
    metadata (db w) = Some col ∧
    db w' = {| metadata := Some (metadata_written B col);
               pokedex := Some (default [] (pokedex (db w)) ++ new);
               pokemon_stats := pokemon_stats (db w) |} ∧
    same_outside_db w w'.

(** [load_data] returns when the file is there and converts, the
    checkpoint table exists and the offset fits an [INTEGER]. *)
Definition loadable (w : world) (f : string) (B : Z) : Prop :=
  (∃ tbl, read_file w f = Some tbl ∧ is_Some (mapM (DuckDB.select_row B) tbl)) ∧
  is_Some (metadata (db w)) ∧
  DuckDB.INT32_MIN ≤ B ≤ DuckDB.INT32_MAX.

(** No row of [metadata] is NULL: no statement of the scripts writes a
    NULL there. *)
Definition checkpoint_not_null (d : database) : Prop :=
  Forall is_Some (checkpoint_rows d).

(** A checkpoint of 30, and the page requested at offset 30 on disk. *)
Definition checkpoint_30_world : world :=
  {| db := {| metadata := Some [Some 30]; pokedex := None; pokemon_stats := None |};
     files := {[ "pokedex_030.parquet" := [venusaur] ]};
     glob := no_glob; requests := []; console := [] |}.

(** The offset a call fetches from: the caller's, or the checkpoint. *)
Definition resolved_offset (last_id : option Z) (w : world) : Z :=
  default (checkpoint_value (db w)) last_id.

Definition request_url (limit offset : Z) : string :=
  "https://pokeapi.co/api/v2/pokemon?limit=" +:+ Py.str limit
  +:+ "&offset=" +:+ Py.str offset.

Definition lab_file_path (offset : Z) : string :=
  "pokedex_" +:+ Py.zfill 3 (Py.str offset) +:+ ".parquet".

Definition solutions_file_path (offset : Z) : string :=
  "pokedex_" +:+ Py.zfill 10 (Py.str offset) +:+ ".parquet".

(** The database once [CREATE TABLE IF NOT EXISTS metadata] has run. *)
Definition with_metadata (d : database) : database :=
  match metadata d with
  | Some _ => d
  | None => set_metadata [] d
  end.

(** A call that returns: the page the service answered, not empty, is
    in the file named after the offset, and the request is on record. *)
Definition extract_effect (api : service) (file_path_of : Z → string)
    (limit : Z) (last_id : option Z) (w w' : world) (path : string) (next : Z)
  : Prop :=
  let offset := resolved_offset last_id w in
  ∃ results,
    api (requests w) (request_url limit offset) = Some results ∧
    results ≠ [] ∧
    path = file_path_of offset ∧
    next = offset + limit ∧
    db w' = with_metadata (db w) ∧
    files w' = <[path := results]> (files w) ∧
    requests w' = requests w ++ [request_url limit offset] ∧
    glob w' = glob w.

(** C2 as it is written, for one of the two [extract_data]. *)
Definition returns_next_offset
    (extract_data : service → Z → option Z → M (string * Z)) : Prop :=
  ∀ api limit last_id w,
    ∃ w' path, extract_data api limit last_id w
               = (w', Ok (path, resolved_offset last_id w + limit)).

(** A service that has nothing left at the offset it is asked for: it
    answers, with an empty list of results. *)
Definition exhausted_api : service := λ _ _, Some [].

(** The exception a call ended with, if any. *)
Definition raised {A} (r : result A) : option error :=
  match r with
  | Ok _ => None
  | Err e => Some e
  end.

(** Two calls of [extract_data], one of each script, from the same world. *)
Definition extract_agree (w : world) (x1 x2 : world * result (string * Z)) : Prop :=
  db x1.1 = db x2.1 ∧ requests x1.1 = requests x2.1 ∧
  match x1.2, x2.2 with
  | Ok (path1, next1), Ok (path2, next2) =>
      next1 = next2 ∧
      ∃ rows, files x1.1 = <[path1 := rows]> (files w) ∧
              files x2.1 = <[path2 := rows]> (files w)
  | Err e1, Err e2 => e1 = e2 ∧ files x1.1 = files w ∧ files x2.1 = files w
  | _, _ => False
  end.

(** Two calls of [load_data] or of [transform_data]. *)
Definition store_agree {A B} (x1 : world * result A) (x2 : world * result B) : Prop :=
  db x1.1 = db x2.1 ∧ files x1.1 = files x2.1 ∧
  requests x1.1 = requests x2.1 ∧ raised x1.2 = raised x2.2.

(** What a call hands to its caller, as Python has it: [None] or a
    string. *)
Inductive value := none | text (s : string).

Definition returned {A} (as_value : A → value) (r : result A) : result value :=
  match r with
  | Ok a => Ok (as_value a)
  | Err e => Err e
  end.

(** C9 as it is written, for [transform_data]: on the same world the two
    scripts leave the same database and hand the same value to their
    caller. *)
Definition transform_equivalent : Prop :=
  ∀ w, db (Lab.transform_data w).1 = db (Solutions.transform_data w).1 ∧
       returned (λ _ : unit, none) (Lab.transform_data w).2
       = returned text (Solutions.transform_data w).2.

(** The lines the driver prints between its steps. *)
Definition is_progress (e : event) : bool :=
  match e with
  | progress => true
  | _ => false
  end.

Definition progress_lines (c : list event) : nat :=
  length (List.filter is_progress c).

(** What a call of [load_data] that returns has printed: the first [n]
    rows of [pokedex] under the offset of the call, and the closing
    line. *)
Definition load_prints (n : nat) (B : Z) (w w' : world) : Prop :=
  console w'
  = console w
    ++ [ preview_loaded
           (Py.head n (filter (λ r, DuckDB.last_id_is B r = true)
                         (default [] (pokedex (db w')))));
         data_loaded ].

(** A call that prints no such line, returning or raising. *)
Definition quiet (w w' : world) : Prop :=
  ∃ lines, console w' = console w ++ lines ∧ progress_lines lines = 0%nat.

(** A page of four records, not loaded yet. *)
Definition four_rows_world : world :=
  {| db := {| metadata := Some []; pokedex := None; pokemon_stats := None |};
     files := {[ "page.parquet" := [bulbasaur; ivysaur; venusaur; bulbasaur] ]};
     glob := no_glob; requests := []; console := [] |}.

(** The integer [load_data] derives from a record, when it derives one. *)
Definition embedded_id (r : record) : option (option Z) :=
  DuckDB.cast_regexp_extract (url r).

(** The row of [pokedex] for a record, its batch offset and its id. *)
Definition tagged (B : Z) (r : record) (id : option Z) : pokedex_row :=
  {| pokedex_last_id := Some B; pokemon_id := id;
     pokedex_name := name r; pokedex_url := url r |}.

(** The ids of the rows that have one. *)
Definition ids_of (rows : list pokedex_row) : list Z := omap pokemon_id rows.

(** The least and the greatest of a list of integers, NULL for none. *)
Definition is_minimum (ids : list Z) (m : option Z) : Prop :=
  match m with
  | Some v => v ∈ ids ∧ ∀ x, x ∈ ids → v ≤ x
  | None => ids = []
  end.

Definition is_maximum (ids : list Z) (m : option Z) : Prop :=
  match m with
  | Some v => v ∈ ids ∧ ∀ x, x ∈ ids → x ≤ v
  | None => ids = []
  end.

(** Both [transform_data] return from [w] and leave [s] as the one row
    of [pokemon_stats], and the other two tables as they were. *)
Definition summarised (w : world) (s : stats_row) : Prop :=
  (∃ w', Lab.transform_data w = (w', Ok tt) ∧
         pokemon_stats (db w') = Some [s] ∧
         metadata (db w') = metadata (db w) ∧ pokedex (db w') = pokedex (db w)) ∧
  (∃ w', Solutions.transform_data w = (w', Ok "pokemon_stats") ∧
         pokemon_stats (db w') = Some [s] ∧
         metadata (db w') = metadata (db w) ∧ pokedex (db w') = pokedex (db w)).

(** A call of either [load_data] that returns. *)
Definition loads (f : string) (B : Z) (w w' : world) : Prop :=
  Lab.load_data f B w = (w', Ok tt) ∨ Solutions.load_data f B w = (w', Ok tt).

(** Two pages on disk and a database that only has its checkpoint table. *)
Definition two_pages_world : world :=
  {| db := {| metadata := Some []; pokedex := None; pokemon_stats := None |};
     files := {[ "pokedex_000.parquet" := [bulbasaur; ivysaur];
                 "pokedex_030.parquet" := [venusaur] ]};
     glob := no_glob; requests := []; console := [] |}.

(** The pattern [/pokemon/(\d+)/], said without a matcher. *)
Module Pattern.

Fixpoint all_digits (s : string) : Prop :=
  match s with
  | EmptyString => True
  | String c s' => (48 ≤ nat_of_ascii c ≤ 57)%nat ∧ all_digits s'
  end.

(** The pattern matches [s] after [pre], with [d] in the group. *)
Definition matches_at (s pre d post : string) : Prop :=
  s = pre +:+ "/pokemon/" +:+ d +:+ "/" +:+ post ∧ d ≠ EmptyString ∧ all_digits d.

(** [d] is the group of the leftmost match. *)
Definition first_capture (s d : string) : Prop :=
  ∃ pre post,
    matches_at s pre d post ∧
    ∀ pre' d' post', matches_at s pre' d' post' →
                     (String.length pre ≤ String.length pre')%nat.

Definition no_match (s : string) : Prop :=
  ∀ pre d post, ¬ matches_at s pre d post.

(** A run of digits read as a decimal number. *)
Fixpoint decimal_value (d : string) : Z :=
  match d with
  | EmptyString => 0
  | String c d' =>
      (Z.of_nat (nat_of_ascii c) - 48) * 10 ^ Z.of_nat (String.length d')
      + decimal_value d'
  end.

End Pattern.

(** The id of a locator, said without the matcher: NULL for a NULL
    locator, otherwise the digits of the leftmost match, read as a
    decimal number. *)
Definition id_of_locator (url : option string) (id : option Z) : Prop :=
  match url with
  | None => id = None
  | Some u => ∃ d, Pattern.first_capture u d ∧ id = Some (Pattern.decimal_value d)
  end.

(** The rows a call appends to [pokedex]: one per record of the file
    when the file is there and every record converts, none otherwise. *)
Definition appended (f : string) (B : Z) (w : world) : list pokedex_row :=
  default [] (read_file w f ≫= mapM (DuckDB.select_row B)).

(** A record that does not convert: [ConversionException], and neither
    rows nor checkpoint are written. *)
Definition conversion_fails {A} (w : world) (x : world * result A) : Prop :=
  x.2 = Err ConversionException ∧
  default [] (pokedex (db x.1)) = default [] (pokedex (db w)) ∧
  metadata (db x.1) = metadata (db w) ∧
  pokemon_stats (db x.1) = pokemon_stats (db w).

(** C3 as it is written, for one of the two [load_data]. *)
Definition all_or_nothing (load_data : string → Z → M unit) : Prop :=
  ∀ f B w tbl,
    read_file w f = Some tbl →
    ((∃ r u, r ∈ tbl ∧ url r = Some u ∧ Pattern.no_match u) →
     (load_data f B w).2 = Err ConversionException ∧
     default [] (pokedex (db (load_data f B w).1)) = default [] (pokedex (db w))) ∧
    ((∀ r, r ∈ tbl → ∃ u d, url r = Some u ∧ Pattern.first_capture u d) →
     ∃ new,
       pokedex (db (load_data f B w).1) = Some (default [] (pokedex (db w)) ++ new) ∧
       Forall2 (λ r row, pokedex_last_id row = Some B ∧
                         pokedex_url row = url r) tbl new).

(** A locator that matches the pattern with more digits than an
    [INTEGER] holds. *)
Definition missingno : record :=
  {| name := Some "missingno";
     url := Some "https://pokeapi.co/api/v2/pokemon/99999999999/" |}.

Definition missingno_world : world :=
  {| db := {| metadata := Some []; pokedex := Some []; pokemon_stats := None |};
     files := {[ "pokedex_000.parquet" := [missingno] ]};
     glob := no_glob; requests := []; console := [] |}.

(** A page with a record whose locator is NULL. *)
Definition unlocated : record := {| name := Some "x"; url := None |}.

Definition unlocated_world : world :=
  {| db := {| metadata := Some []; pokedex := Some []; pokemon_stats := None |};
     files := {[ "pokedex_000.parquet" := [bulbasaur; unlocated] ]};
     glob := no_glob; requests := []; console := [] |}.

(** A page with a locator that names no number. *)
Definition nameless : record :=
  {| name := Some "pikachu";
     url := Some "https://pokeapi.co/api/v2/pokemon/pikachu/" |}.

Definition nameless_world : world :=
  {| db := {| metadata := Some [Some 30]; pokedex := Some [tagged 30 bulbasaur (Some 1)];
              pokemon_stats := None |};
     files := {[ "pokedex_030.parquet" := [ivysaur; nameless] ]};
     glob := no_glob; requests := []; console := [] |}.

(** The digits [str] prints after the sign. *)
Definition digits_of (n : Z) : Decimal.uint :=
  match n with
  | Z0 => Decimal.zero
  | Zpos p | Zneg p => Pos.to_uint p
  end.

Definition sign_of (n : Z) : string := if n <? 0 then "-" else "".

(** Reading digits back. *)
Definition read_digits (s : string) : option Z :=
  Z.of_uint <$> NilEmpty.uint_of_string s.

(** C8 as it is written, for one of the two [extract_data]. *)
Definition fixed_width_names
    (extract_data : service → Z → option Z → M (string * Z)) : Prop :=
  ∀ api1 api2 limit1 limit2 last1 last2 w1 w2 w1' w2' path1 path2 next1 next2,
    extract_data api1 limit1 last1 w1 = (w1', Ok (path1, next1)) →
    extract_data api2 limit2 last2 w2 = (w2', Ok (path2, next2)) →
    String.length path1 = String.length path2 ∧
    (resolved_offset last1 w1 ≠ resolved_offset last2 w2 → path1 ≠ path2).

(** A run of the driver that returns, as seen in the world it leaves:
    two pages were requested, at [offset] and at [offset + limit], each
    is in the file named after the offset it was requested at, and the
    rows of each are in [pokedex] under the offset that follows the
    page: [offset + limit] and [offset + 2 * limit]. *)
Definition driver_effect (api : service) (file_path_of : Z → string)
    (limit : Z) (w w' : world) : Prop :=
  let offset := checkpoint_value (db w) in
  ∃ page1 page2 ids1 ids2,
    api (requests w) (request_url limit offset) = Some page1 ∧
    api (requests w ++ [request_url limit offset])
        (request_url limit (offset + limit)) = Some page2 ∧
    requests w' = requests w ++ [request_url limit offset;
                                 request_url limit (offset + limit)] ∧
    files w' = <[file_path_of (offset + limit) := page2]>
                 (<[file_path_of offset := page1]> (files w)) ∧
    mapM embedded_id page1 = Some ids1 ∧
    mapM embedded_id page2 = Some ids2 ∧
    pokedex (db w') = Some (default [] (pokedex (db w))
                            ++ zip_with (tagged (offset + limit)) page1 ids1
                            ++ zip_with (tagged (offset + limit + limit)) page2 ids2).

(** C6 as it is written, on the world a run leaves: a row that
    carries a record of the page requested at [offset], the page in the
    file named after [offset], is recorded under [offset]. *)
Definition fetch_offset_recorded (file_path_of : Z → string) (limit : Z)
    (w' : world) : Prop :=
  ∀ offset page r row,
    request_url limit offset ∈ requests w' →
    files w' !! file_path_of offset = Some page →
    r ∈ page →
    row ∈ default [] (pokedex (db w')) →
    pokedex_name row = name r →
    pokedex_url row = url r →
    pokedex_last_id row = Some offset.

(** C6 as it is written, for one of the two drivers. *)
Definition driver_keeps_offset (main : service → M unit)
    (file_path_of : Z → string) (limit : Z) : Prop :=
  ∀ api w w', main api w = (w', Ok tt) → fetch_offset_recorded file_path_of limit w'.

(** ** The scripts as a whole *)

(** [m] takes every world to a world related to it by [R], whether it
    returns or raises. *)
Definition keeps {A} (R : world → world → Prop) (m : M A) : Prop :=
  ∀ w, R w (m w).1.

Definition never_raises {A} (e : error) (m : M A) : Prop :=
  ∀ w, (m w).2 ≠ Err e.

(** Nothing is taken away: the rows of [pokedex] stay where they are,
    tables and files stay in place, requests and console grow. *)
Definition evolves (w w' : world) : Prop :=
  default [] (pokedex (db w)) `prefix_of` default [] (pokedex (db w')) ∧
  (is_Some (pokedex (db w)) → is_Some (pokedex (db w'))) ∧
  (is_Some (metadata (db w)) → is_Some (metadata (db w'))) ∧
  (is_Some (pokemon_stats (db w)) → is_Some (pokemon_stats (db w'))) ∧
  dom (files w) ⊆ dom (files w') ∧
  requests w `prefix_of` requests w' ∧
  console w `prefix_of` console w'.

Definition in_int32 (n : Z) : Prop := DuckDB.INT32_MIN ≤ n ≤ DuckDB.INT32_MAX.

(** A row as [load_data] makes them: an offset that is not NULL and
    fits an [INTEGER], the name and the locator of a record as they
    were, NULL when they were, and the id of that locator, NULL for a
    NULL locator. *)
Definition loaded_row (row : pokedex_row) : Prop :=
  ∃ B r id, row = tagged B r id ∧ in_int32 B ∧ embedded_id r = Some id.

(** The database as the scripts keep it. *)
Definition well_formed (d : database) : Prop :=
  (∀ col, metadata d = Some col →
          (length col ≤ 1)%nat ∧ ∀ v, v ∈ col → ∃ B, v = Some B ∧ in_int32 B) ∧
  (∀ rows, pokedex d = Some rows → Forall loaded_row rows) ∧
  (∀ stats, pokemon_stats d = Some stats →
            ∃ s, stats = [s] ∧
                 0 ≤ total_pokemon s ≤ DuckDB.COUNT (default [] (pokedex d))).

Inductive script := lab | solutions.

(** One call of a function of one of the scripts. *)
Inductive call :=
| call_extract_data (s : script) (api : service) (limit : Z) (last_id : option Z)
| call_load_data (s : script) (file_path : string) (new_last_id : Z)
| call_transform_data (s : script)
| call_main (s : script) (api : service).

(** The world a call leaves, returning or raising. *)
Definition after (c : call) (w : world) : world :=
  match c with
  | call_extract_data lab api limit last_id => (Lab.extract_data api limit last_id w).1
  | call_extract_data solutions api limit last_id =>
      (Solutions.extract_data api limit last_id w).1
  | call_load_data lab f B => (Lab.load_data f B w).1
  | call_load_data solutions f B => (Solutions.load_data f B w).1
  | call_transform_data lab => (Lab.transform_data w).1
  | call_transform_data solutions => (Solutions.transform_data w).1
  | call_main lab api => (Lab.main api w).1
  | call_main solutions api => (Solutions.main api w).1
  end.

(** The worlds the scripts reach from a database without tables,
    whatever is on disk, by any calls with any service. *)
Inductive reachable : world → Prop :=
| reachable_start w : db w = empty_database → reachable w
| reachable_call c w : reachable w → reachable (after c w).

(** The row [transform_data] computes from the rows of [pokedex]. *)
Definition summary_of (rows : list pokedex_row) : stats_row :=
  {| total_pokemon := DuckDB.COUNT rows;
     first_id := DuckDB.MIN (pokemon_id <$> rows);
     last_id := DuckDB.MAX (pokemon_id <$> rows) |}.

(** The world after a request that failed: the table of the checkpoint
    exists, the request is on record, two lines were printed, and no
    file was written. *)
Definition fetch_failed (request : string) (w : world) : world :=
  {| db := with_metadata (db w); files := files w; glob := glob w;
     requests := requests w ++ [request];
     console := console w ++ [getting_data request; failed_to_fetch] |}.

(** A page on disk and a database without any table. *)
Definition page_only_world : world :=
  {| db := empty_database;
     files := {[ "pokedex_000.parquet" := [bulbasaur; ivysaur] ]};
     glob := no_glob; requests := []; console := [] |}.

(** A directory that knows one pattern and one other spelling of a
    name. *)
Definition sample_glob : gset string → string → list string :=
  λ _ path,
    if String.eqb path "pokedex_*.parquet"
    then ["pokedex_000.parquet"; "pokedex_030.parquet"]
    else if String.eqb path "./pokedex_000.parquet"
         then ["pokedex_000.parquet"]
         else [].

(** Two pages in that directory. *)
Definition pattern_world : world :=
  {| db := {| metadata := Some []; pokedex := None; pokemon_stats := None |};
     files := {[ "pokedex_000.parquet" := [bulbasaur; ivysaur];
                 "pokedex_030.parquet" := [venusaur] ]};
     glob := sample_glob; requests := []; console := [] |}.

(** A service that is down. *)
Definition down_api : service := λ _ _, None.

(** What a call of [load_data] leaves, returning or raising: the
    summary as it was, the rows it appended behind the rows that were
    there, the checkpoint as it was or written, files and requests as
    they were. *)
Definition load_outcome (f : string) (B : Z) (w w' : world) : Prop :=
  pokemon_stats (db w') = pokemon_stats (db w) ∧
  pokedex (db w') = Some (default [] (pokedex (db w)) ++ appended f B w) ∧
  (metadata (db w') = metadata (db w) ∨
   ∃ col, metadata (db w) = Some col ∧
          metadata (db w') = Some (metadata_written B col) ∧
          (col = [] ∨ (∃ v, Some v ∈ col) → in_int32 B)) ∧
  files w' = files w ∧ requests w' = requests w ∧
  console w `prefix_of` console w'.

(** What a call of [transform_data] leaves: the world as it was when
    [pokedex] does not exist, otherwise the summary of its rows in
    place of any earlier one. *)
Definition transform_outcome (w w' : world) : Prop :=
  metadata (db w') = metadata (db w) ∧
  pokedex (db w') = pokedex (db w) ∧
  pokemon_stats (db w')
  = match pokedex (db w) with
    | Some rows => Some [summary_of rows]
    | None => pokemon_stats (db w)
    end ∧
  files w' = files w ∧ requests w' = requests w ∧
  console w `prefix_of` console w'.

(** What a call of [extract_data] leaves, returning or raising. *)
Definition extract_outcome (w w' : world) : Prop :=
  db w' = with_metadata (db w) ∧
  (files w' = files w ∨ ∃ path page, files w' = <[path := page]> (files w)) ∧
  requests w `prefix_of` requests w' ∧
  console w `prefix_of` console w'.

(** A database that is well formed stays so. *)
Definition stays_well_formed (w w' : world) : Prop :=
  well_formed (db w) → well_formed (db w').

(** A service that answers every request with the same page. *)
Definition steady_api : service := λ _ _, Some [bulbasaur; ivysaur].

(** The database a run of the driver that returns leaves: the checkpoint
    written twice, by the first load and by the second, and the summary
    of the rows [pokedex] then holds. *)
Definition driver_final (limit : Z) (w w' : world) : Prop :=
  let offset := checkpoint_value (db w) in
  checkpoint_rows (db w')
  = metadata_written (offset + limit + limit)
      (metadata_written (offset + limit) (checkpoint_rows (db w))) ∧
  ∃ rows, pokedex (db w') = Some rows ∧
          pokemon_stats (db w') = Some [summary_of rows].

(** The checkpoint has a value to overwrite, or no row at all. *)
Definition checkpoint_writable (d : database) : Prop :=
  checkpoint_rows d = [] ∨ ∃ v, Some v ∈ checkpoint_rows d.

(** A service whose second page has a record without a number. *)
Definition flawed_api : service :=
  λ earlier _, match earlier with
               | [] => Some [bulbasaur; ivysaur]
               | _ => Some [venusaur; nameless]
               end.

(** The database after a run whose second load raised: the rows of the
    first page under the offset that follows it, that offset as the
    checkpoint, and the summary as it was. *)
Definition first_page_committed (limit : Z) (page1 : list record)
    (ids1 : list (option Z))
    (w w' : world) : Prop :=
  pokedex (db w')
  = Some (default [] (pokedex (db w))
          ++ zip_with (tagged (checkpoint_value (db w) + limit)) page1 ids1) ∧
  checkpoint_rows (db w')
  = metadata_written (checkpoint_value (db w) + limit) (checkpoint_rows (db w)) ∧
  pokemon_stats (db w') = pokemon_stats (db w).

(** * Properties *)

(** ** The model on small inputs *)

Example str_0 : Py.str 0 = "0". Proof. reflexivity. Qed.
Example str_1302 : Py.str 1302 = "1302". Proof. reflexivity. Qed.
Example str_neg : Py.str (-5) = "-5". Proof. reflexivity. Qed.
Example zfill_3 : Py.zfill 3 (Py.str 30) = "030". Proof. reflexivity. Qed.
Example zfill_long : Py.zfill 3 (Py.str 1000) = "1000". Proof. reflexivity. Qed.
Example zfill_neg : Py.zfill 3 (Py.str (-5)) = "-05". Proof. reflexivity. Qed.

Example capture_25 :
  DuckDB.regexp_capture "https://pokeapi.co/api/v2/pokemon/25/" = Some "25".
Proof. reflexivity. Qed.
Example capture_none :
  DuckDB.regexp_extract "https://pokeapi.co/api/v2/pokemon/pikachu/" = "".
Proof. reflexivity. Qed.
Example capture_leftmost :
  DuckDB.regexp_capture "/pokemon/x/pokemon/007/pokemon/8/" = Some "007".
Proof. reflexivity. Qed.
Example cast_25 : DuckDB.cast_varchar_integer "0025" = Some 25.
Proof. reflexivity. Qed.
Example cast_empty : DuckDB.cast_varchar_integer "" = None.
Proof. reflexivity. Qed.
Example cast_big : DuckDB.cast_varchar_integer "2147483648" = None.
Proof. reflexivity. Qed.

(** ** Running the monad *)

Lemma bind_inv_ok {A B} (m : M A) (k : A → M B) w w' b :
  bind m k w = (w', Ok b) → ∃ w1 a, m w = (w1, Ok a) ∧ k a w1 = (w', Ok b).
Proof.
  unfold bind. destruct (m w) as [w1 [a|e]]; [eauto | discriminate].
Qed.

Tactic Notation "step" hyp(H) "as" ident(w1) ident(a) ident(H1) :=
  apply bind_inv_ok in H as (w1 & a & H1 & H).

(** ** The checkpoint *)

Lemma read_checkpoint_value w :
  snd (read_checkpoint w) = Ok (checkpoint_value (db w)).
Proof.
  unfold read_checkpoint, bind, DuckDB.create_table_metadata,
    DuckDB.select_coalesce_max_last_id, DuckDB.statement, checkpoint_value,
    checkpoint_rows.
  destruct w as [[[m|] p s] fs gl rq co]; reflexivity.
Qed.

Lemma MIN_is_minimum (col : list (option Z)) :
  is_minimum (omap id col) (DuckDB.MIN col).
Proof.
  induction col as [|[x|] col IH]; simpl; [done| |done].
  unfold DuckDB.MIN in *. simpl.
  destruct (foldr DuckDB.min2 None col) as [y|]; simpl in *.
  - destruct IH as [Hy Hle]. split.
    + destruct (Z.min_spec x y) as [[_ ->]|[_ ->]]; [left | by right].
    + intros z [->|Hz]%elem_of_cons; [lia|]. specialize (Hle z Hz). lia.
  - change (omap id col = []) in IH. change (list_omap _ _ id col) with (omap id col).
    rewrite IH. split; [left|]. intros z [->|Hz]%elem_of_cons; [lia|].
    by apply elem_of_nil in Hz.
Qed.

Lemma MAX_is_maximum (col : list (option Z)) :
  is_maximum (omap id col) (DuckDB.MAX col).
Proof.
  induction col as [|[x|] col IH]; simpl; [done| |done].
  unfold DuckDB.MAX in *. simpl.
  destruct (foldr DuckDB.max2 None col) as [y|]; simpl in *.
  - destruct IH as [Hy Hle]. split.
    + destruct (Z.max_spec x y) as [[_ ->]|[_ ->]]; [by right | left].
    + intros z [->|Hz]%elem_of_cons; [lia|]. specialize (Hle z Hz). lia.
  - change (omap id col = []) in IH. change (list_omap _ _ id col) with (omap id col).
    rewrite IH. split; [left|]. intros z [->|Hz]%elem_of_cons; [lia|].
    by apply elem_of_nil in Hz.
Qed.

(** ** What [load_data] does to the database *)

Lemma cast_integer_Some n v : DuckDB.cast_integer n = Some v → v = n.
Proof. unfold DuckDB.cast_integer. case_match; congruence. Qed.

Lemma cast_integer_in_range n :
  DuckDB.INT32_MIN ≤ n ≤ DuckDB.INT32_MAX → DuckDB.cast_integer n = Some n.
Proof.
  intros [H1 H2]. unfold DuckDB.cast_integer.
  apply Z.leb_le in H1, H2. by rewrite H1, H2.
Qed.

Lemma update_rows_Some B col col' :
  mapM (λ v : option Z, match v with
                        | Some _ => Some <$> DuckDB.cast_integer B
                        | None => Some None
                        end) col = Some col' →
  col' = (λ v : option Z, (λ _, B) <$> v) <$> col.
Proof.
  intros H%mapM_Some_1.
  induction H as [|v v' col col' Hv _ IH]; [done|]. simpl. f_equal; [|done].
  destruct v as [v|]; simpl in *; [|congruence].
  destruct (DuckDB.cast_integer B) as [b|] eqn:Hb; simpl in *; [|done].
  apply cast_integer_Some in Hb. congruence.
Qed.

Ltac run_load :=
  unfold bind, ret, raise, print, DuckDB.create_table_pokedex,
    DuckDB.insert_into_pokedex, DuckDB.select_pokedex_where_last_id,
    DuckDB.update_metadata, DuckDB.count_metadata,
    DuckDB.insert_into_metadata, DuckDB.statement, set_db, set_pokedex,
    set_metadata, DuckDB.COUNT in *; simpl in *.

Ltac load_inv f B :=
  match goal with
  | |- context [ {| db := {| metadata := ?m; pokedex := ?p |}; files := ?fs;
                    glob := ?gl |} ] =>
      intros H; exists (default [] (DuckDB.read_parquet gl fs f));
      destruct p as [rows|]; simpl in *;
      (destruct (DuckDB.read_parquet gl fs f) as [tbl|] eqn:Hf; simpl in *; [|done]);
      (destruct (mapM (DuckDB.select_row B) tbl) as [new|] eqn:Hnew;
       simpl in *; [|done]);
      (destruct m as [col|]; simpl in *; [|done]);
      (destruct (mapM _ col) as [col'|] eqn:Hcol; simpl in *; [|done]);
      apply update_rows_Some in Hcol as ->;
      exists new, col; destruct col as [|v col]; simpl in *;
      try (destruct (DuckDB.cast_integer B) as [b|] eqn:Hb; simpl in *; [|done];
           apply cast_integer_Some in Hb as ->);
      by simplify_eq
  end.

Lemma Lab_load_data_inv f B w w' :
  Lab.load_data f B w = (w', Ok tt) → load_effect w w' f B.
Proof.
  unfold Lab.load_data, load_effect, same_outside_db, read_file.
  destruct w as [[m p s] fs gl rq co]. run_load. load_inv f B.
Qed.

Lemma Solutions_load_data_inv f B w w' :
  Solutions.load_data f B w = (w', Ok tt) → load_effect w w' f B.
Proof.
  unfold Solutions.load_data, load_effect, same_outside_db, read_file.
  destruct w as [[m p s] fs gl rq co]. run_load. load_inv f B.
Qed.

Lemma update_rows_in_range B col :
  DuckDB.INT32_MIN ≤ B ≤ DuckDB.INT32_MAX →
  is_Some (mapM (λ v : option Z, match v with
                        | Some _ => Some <$> DuckDB.cast_integer B
                        | None => Some None
                        end) col).
Proof.
  intros HB. apply mapM_is_Some_2, Forall_forall. intros [v|] _; simpl; [|done].
  by rewrite cast_integer_in_range.
Qed.

Ltac load_ok f B :=
  match goal with
  | |- context [ {| db := {| metadata := ?m; pokedex := ?p |}; files := ?fs;
                    glob := ?gl |} ] =>
      intros ((tbl & Hf & [new Hnew]) & [col Hm] & HB); simpl in *; subst m;
      destruct (update_rows_in_range B col HB) as [col' Hcol];
      pose proof (update_rows_Some _ _ _ Hcol) as Hcol';
      destruct p as [rows|]; simpl in *; rewrite Hf, Hnew; simpl;
      rewrite Hcol; simpl;
      (destruct col as [|v col]; simpl in *;
       [ injection Hcol as <-; simpl; rewrite (cast_integer_in_range B HB); eauto
       | subst col'; simpl; eauto ])
  end.

Lemma Lab_load_data_ok f B w :
  loadable w f B → ∃ w', Lab.load_data f B w = (w', Ok tt).
Proof.
  unfold Lab.load_data, loadable, read_file.
  destruct w as [[m p s] fs gl rq co]. run_load. load_ok f B.
Qed.

Lemma Solutions_load_data_ok f B w :
  loadable w f B → ∃ w', Solutions.load_data f B w = (w', Ok tt).
Proof.
  unfold Solutions.load_data, loadable, read_file.
  destruct w as [[m p s] fs gl rq co]. run_load. load_ok f B.
Qed.

Lemma MAX_written_shape B (col : list (option Z)) :
  DuckDB.MAX ((λ v : option Z, (λ _, B) <$> v) <$> col) = None ∨
  DuckDB.MAX ((λ v : option Z, (λ _, B) <$> v) <$> col) = Some B.
Proof.
  induction col as [|x col IH]; [by left|].
  rewrite fmap_cons. unfold DuckDB.MAX in *. rewrite foldr_cons.
  destruct x as [x|], IH as [-> | ->]; simpl; rewrite ?Z.max_id; auto.
Qed.

Lemma MAX_written B col :
  (∃ v, Some v ∈ col) →
  DuckDB.MAX ((λ v : option Z, (λ _, B) <$> v) <$> col) = Some B.
Proof.
  intros [v Hv].
  induction col as [|x col IH]; [by apply elem_of_nil in Hv|].
  rewrite fmap_cons. unfold DuckDB.MAX in *. rewrite foldr_cons.
  apply elem_of_cons in Hv as [<-|Hv].
  - destruct (MAX_written_shape B col) as [H | H];
      unfold DuckDB.MAX in H; rewrite H; simpl; rewrite ?Z.max_id; done.
  - rewrite (IH Hv). destruct x; simpl; rewrite ?Z.max_id; done.
Qed.

Lemma checkpoint_value_written B col :
  col = [] ∨ (∃ v, Some v ∈ col) →
  DuckDB.COALESCE (DuckDB.MAX (metadata_written B col)) 0 = B.
Proof.
  intros [->|H]; [done|].
  unfold metadata_written. destruct col as [|x col].
  - destruct H as [v Hv]. by apply elem_of_nil in Hv.
  - by rewrite MAX_written.
Qed.

(** ** What [extract_data] does *)

Ltac run_extract :=
  unfold bind, ret, raise, print, try_except, requests_get,
    DuckDB.create_table_metadata, DuckDB.select_coalesce_max_last_id,
    DuckDB.from_df, DuckDB.write_parquet, DuckDB.statement, set_db,
    set_metadata, resolved_offset, checkpoint_value, checkpoint_rows,
    with_metadata, request_url, lab_file_path, solutions_file_path in *;
  simpl in *.

Ltac extract_cases api :=
  match goal with
  | |- context [ {| db := {| metadata := ?m |}; requests := ?rq |} ] =>
      destruct m as [col|]; simpl;
      match goal with
      | |- context [ api rq ?u ] => destruct (api rq u) as [[|r results]|] eqn:Hapi
      end; simpl
  end.

Lemma Lab_extract_data_inv api limit last_id w w' path next :
  Lab.extract_data api limit last_id w = (w', Ok (path, next)) →
  extract_effect api lab_file_path limit last_id w w' path next.
Proof.
  unfold Lab.extract_data, extract_effect.
  destruct w as [[m p s] fs gl rq co], last_id as [O|]; run_extract;
    extract_cases api; intros H; simplify_eq; simpl; eauto 10.
Qed.

Lemma Solutions_extract_data_inv api limit last_id w w' path next :
  Solutions.extract_data api limit last_id w = (w', Ok (path, next)) →
  extract_effect api solutions_file_path limit last_id w w' path next.
Proof.
  unfold Solutions.extract_data, extract_effect.
  destruct w as [[m p s] fs gl rq co], last_id as [O|]; run_extract;
    extract_cases api; intros H; simplify_eq; simpl; eauto 10.
Qed.

(** A call returns as soon as the service answers with a page that is
    not empty. *)
Lemma Lab_extract_data_ok api limit last_id w results :
  api (requests w) (request_url limit (resolved_offset last_id w)) = Some results →
  results ≠ [] →
  ∃ w', Lab.extract_data api limit last_id w
        = (w', Ok (lab_file_path (resolved_offset last_id w),
                   resolved_offset last_id w + limit)).
Proof.
  unfold Lab.extract_data.
  destruct w as [[m p s] fs gl rq co], last_id as [O|]; run_extract;
    destruct m as [col|]; simpl; intros -> Hne; destruct results; simpl;
    try done; eauto.
Qed.

Lemma Solutions_extract_data_ok api limit last_id w results :
  api (requests w) (request_url limit (resolved_offset last_id w)) = Some results →
  results ≠ [] →
  ∃ w', Solutions.extract_data api limit last_id w
        = (w', Ok (solutions_file_path (resolved_offset last_id w),
                   resolved_offset last_id w + limit)).
Proof.
  unfold Solutions.extract_data.
  destruct w as [[m p s] fs gl rq co], last_id as [O|]; run_extract;
    destruct m as [col|]; simpl; intros -> Hne; destruct results; simpl;
    try done; eauto.
Qed.

(** Whether it returns or raises, a call leaves the database as
    [CREATE TABLE IF NOT EXISTS metadata] left it. *)
Lemma Lab_extract_data_db api limit last_id w :
  db (fst (Lab.extract_data api limit last_id w)) = with_metadata (db w).
Proof.
  unfold Lab.extract_data.
  destruct w as [[m p s] fs gl rq co], last_id as [O|]; run_extract;
    extract_cases api; reflexivity.
Qed.

Lemma Solutions_extract_data_db api limit last_id w :
  db (fst (Solutions.extract_data api limit last_id w)) = with_metadata (db w).
Proof.
  unfold Solutions.extract_data.
  destruct w as [[m p s] fs gl rq co], last_id as [O|]; run_extract;
    extract_cases api; reflexivity.
Qed.

(** ** C2: the next offset *)

(** What a call gives its caller, by what the service answers. *)
Lemma Lab_extract_data_result api limit last_id w :
  (Lab.extract_data api limit last_id w).2
  = match api (requests w) (request_url limit (resolved_offset last_id w)) with
    | Some [] => Err InvalidInputException
    | Some _ => Ok (lab_file_path (resolved_offset last_id w),
                    resolved_offset last_id w + limit)
    | None => Err RequestException
    end.
Proof.
  unfold Lab.extract_data.
  destruct w as [[m p s] fs gl rq co], last_id as [O|]; run_extract;
    extract_cases api; reflexivity.
Qed.

Lemma Solutions_extract_data_result api limit last_id w :
  (Solutions.extract_data api limit last_id w).2
  = match api (requests w) (request_url limit (resolved_offset last_id w)) with
    | Some [] => Err InvalidInputException
    | Some _ => Ok (solutions_file_path (resolved_offset last_id w),
                    resolved_offset last_id w + limit)
    | None => Err RequestException
    end.
Proof.
  unfold Solutions.extract_data.
  destruct w as [[m p s] fs gl rq co], last_id as [O|]; run_extract;
    extract_cases api; reflexivity.
Qed.

(** C2, as stated, fails: asked for an offset at which the service has
    nothing left, both [extract_data] raise and return no offset. *)
Lemma returns_next_offset_fails :
  ¬ returns_next_offset Lab.extract_data ∧
  ¬ returns_next_offset Solutions.extract_data.
Proof.
  split; intros H;
    destruct (H exhausted_api 30 (Some 2000) fresh_world) as (w' & path & Hrun);
    vm_compute in Hrun; discriminate.
Qed.

(** C2, amended: a call of [extract_data] returns exactly when the
    service answers the request with a list of results that is not
    empty, and then it returns the offset it resolved plus [limit]; on
    an empty list of results it raises [InvalidInputException], and on
    a request that fails the exception of the request.  The resolved
    offset is the caller's when one is given; otherwise it is what the
    read of the checkpoint yields: 0 while [metadata] holds no value,
    and the greatest value it holds otherwise. *)
Theorem extract_data_next_offset api limit last_id w :
  let offset := resolved_offset last_id w in
  let answer := api (requests w) (request_url limit offset) in
  (∀ w' path next,
     Lab.extract_data api limit last_id w = (w', Ok (path, next)) ∨
     Solutions.extract_data api limit last_id w = (w', Ok (path, next)) →
     next = offset + limit ∧ ∃ results, answer = Some results ∧ results ≠ []) ∧
  (∀ results,
     answer = Some results →
     results ≠ [] →
     (∃ w' path, Lab.extract_data api limit last_id w
                 = (w', Ok (path, offset + limit))) ∧
     (∃ w' path, Solutions.extract_data api limit last_id w
                 = (w', Ok (path, offset + limit)))) ∧
  (answer = Some [] →
   (Lab.extract_data api limit last_id w).2 = Err InvalidInputException ∧
   (Solutions.extract_data api limit last_id w).2 = Err InvalidInputException) ∧
  (answer = None →
   (Lab.extract_data api limit last_id w).2 = Err RequestException ∧
   (Solutions.extract_data api limit last_id w).2 = Err RequestException) ∧
  (∀ O, last_id = Some O → offset = O) ∧
  (last_id = None → snd (read_checkpoint w) = Ok offset) ∧
  (last_id = None → omap id (checkpoint_rows (db w)) = [] → offset = 0) ∧
  (last_id = None → omap id (checkpoint_rows (db w)) ≠ [] →
   is_maximum (omap id (checkpoint_rows (db w))) (Some offset)).
Proof.
  intros offset answer. split_and!.
  - intros w' path next [H|H].
    + apply Lab_extract_data_inv in H as (results & ? & ? & _ & Hnext & _). eauto.
    + apply Solutions_extract_data_inv in H as (results & ? & ? & _ & Hnext & _).
      eauto.
  - intros results Hapi Hne. split.
    + destruct (Lab_extract_data_ok _ _ _ _ _ Hapi Hne) as [w' Hrun]. eauto.
    + destruct (Solutions_extract_data_ok _ _ _ _ _ Hapi Hne) as [w' Hrun]. eauto.
  - intros Hapi. rewrite Lab_extract_data_result, Solutions_extract_data_result.
    fold offset answer. by rewrite Hapi.
  - intros Hapi. rewrite Lab_extract_data_result, Solutions_extract_data_result.
    fold offset answer. by rewrite Hapi.
  - by intros O ->.
  - intros ->. apply read_checkpoint_value.
  - intros -> Hrows. subst offset. unfold resolved_offset, checkpoint_value. simpl.
    pose proof (MAX_is_maximum (checkpoint_rows (db w))) as Hmax.
    destruct (DuckDB.MAX (checkpoint_rows (db w))) as [v|]; simpl in *; [|done].
    destruct Hmax as [Hv _]. rewrite Hrows in Hv. by apply elem_of_nil in Hv.
  - intros -> Hrows. subst offset. unfold resolved_offset, checkpoint_value. simpl.
    pose proof (MAX_is_maximum (checkpoint_rows (db w))) as Hmax.
    destruct (DuckDB.MAX (checkpoint_rows (db w))) as [v|]; simpl in *; done.
Qed.

Lemma extract_data_next_offset_witness :
  ∃ w' path, Lab.extract_data sample_api 30 None fresh_world = (w', Ok (path, 0 + 30)).
Proof.
  destruct (extract_data_next_offset sample_api 30 None fresh_world)
    as (_ & Hruns & _).
  destruct (Hruns [bulbasaur; ivysaur]) as [Hlab _].
  - reflexivity.
  - discriminate.
  - exact Hlab.
Defined.

(** ** C7: extraction leaves the checkpoint alone *)

(** C7: whether it returns or raises, with or without a start offset,
    [extract_data] leaves the rows of [metadata] and so the value of the
    checkpoint as they were, as well as [pokedex] and [pokemon_stats];
    its one statement besides the read creates [metadata], without a
    row, in a database that has no such table, and a database that has
    the table is left identical. *)
Theorem extract_data_keeps_checkpoint api limit last_id w :
  let w1 := fst (Lab.extract_data api limit last_id w) in
  let w2 := fst (Solutions.extract_data api limit last_id w) in
  (checkpoint_rows (db w1) = checkpoint_rows (db w) ∧
   checkpoint_rows (db w2) = checkpoint_rows (db w)) ∧
  (checkpoint_value (db w1) = checkpoint_value (db w) ∧
   checkpoint_value (db w2) = checkpoint_value (db w)) ∧
  (snd (read_checkpoint w1) = snd (read_checkpoint w) ∧
   snd (read_checkpoint w2) = snd (read_checkpoint w)) ∧
  (pokedex (db w1) = pokedex (db w) ∧ pokedex (db w2) = pokedex (db w)) ∧
  (pokemon_stats (db w1) = pokemon_stats (db w) ∧
   pokemon_stats (db w2) = pokemon_stats (db w)) ∧
  (is_Some (metadata (db w)) → db w1 = db w ∧ db w2 = db w).
Proof.
  intros w1 w2. subst w1 w2. rewrite !read_checkpoint_value.
  rewrite Lab_extract_data_db, Solutions_extract_data_db.
  unfold checkpoint_value, checkpoint_rows, with_metadata.
  destruct (db w) as [[col|] p s]; simpl; split_and!; try done.
Qed.

Lemma extract_data_keeps_checkpoint_witness :
  db (fst (Lab.extract_data sample_api 30 (Some 30) checkpoint_30_world))
  = db checkpoint_30_world.
Proof.
  apply (extract_data_keeps_checkpoint sample_api 30 (Some 30) checkpoint_30_world).
  vm_compute. eauto.
Defined.

(** ** The lines each script prints *)

Global Instance quiet_preorder : PreOrder quiet.
Proof.
  split.
  - intros w. exists []. by rewrite app_nil_r.
  - intros w1 w2 w3 (l1 & H1 & Q1) (l2 & H2 & Q2). exists (l1 ++ l2).
    rewrite H2, H1, <- app_assoc. split; [done|].
    unfold progress_lines in *. rewrite List.filter_app, length_app. lia.
Qed.

Ltac quiet_run :=
  eexists; split;
  [ first [ reflexivity | rewrite <- !app_assoc; reflexivity
          | symmetry; apply app_nil_r ]
  | reflexivity ].

Lemma Lab_extract_data_quiet api limit last_id w :
  quiet w (Lab.extract_data api limit last_id w).1.
Proof.
  unfold Lab.extract_data, quiet.
  destruct w as [[m p s] fs gl rq co], last_id as [O|]; run_extract;
    extract_cases api; quiet_run.
Qed.

Lemma Solutions_extract_data_quiet api limit last_id w :
  quiet w (Solutions.extract_data api limit last_id w).1.
Proof.
  unfold Solutions.extract_data, quiet.
  destruct w as [[m p s] fs gl rq co], last_id as [O|]; run_extract;
    extract_cases api; quiet_run.
Qed.

Ltac load_quiet f B :=
  match goal with
  | |- context [ {| db := {| metadata := ?m; pokedex := ?p |}; files := ?fs;
                    glob := ?gl |} ] =>
      destruct p as [rows|]; simpl;
      (destruct (DuckDB.read_parquet gl fs f) as [tbl|]; simpl; [|quiet_run]);
      (destruct (mapM (DuckDB.select_row B) tbl) as [new|]; simpl; [|quiet_run]);
      (destruct m as [col|]; simpl; [|quiet_run]);
      (destruct (mapM _ col) as [col'|]; simpl; [|quiet_run]);
      destruct col' as [|v col']; simpl; try quiet_run;
      destruct (DuckDB.cast_integer B); simpl; quiet_run
  end.

Lemma Lab_load_data_quiet f B w : quiet w (Lab.load_data f B w).1.
Proof.
  unfold Lab.load_data, quiet. destruct w as [[m p s] fs gl rq co]. run_load.
  load_quiet f B.
Qed.

Lemma Solutions_load_data_quiet f B w : quiet w (Solutions.load_data f B w).1.
Proof.
  unfold Solutions.load_data, quiet. destruct w as [[m p s] fs gl rq co]. run_load.
  load_quiet f B.
Qed.

Lemma Lab_transform_data_quiet w : quiet w (Lab.transform_data w).1.
Proof.
  unfold quiet, Lab.transform_data, bind, print,
    DuckDB.create_or_replace_pokemon_stats, DuckDB.select_pokemon_stats,
    DuckDB.statement.
  destruct w as [[m [rows|] s] fs gl rq co]; simpl; quiet_run.
Qed.

Lemma Solutions_transform_data_quiet w : quiet w (Solutions.transform_data w).1.
Proof.
  unfold quiet, Solutions.transform_data, bind, ret, print,
    DuckDB.create_or_replace_pokemon_stats, DuckDB.select_pokemon_stats,
    DuckDB.statement.
  destruct w as [[m [rows|] s] fs gl rq co]; simpl; quiet_run.
Qed.

Lemma quiet_lines w w' n :
  quiet w w' → progress_lines (console w) = n →
  progress_lines (console w') = n.
Proof.
  intros (l & -> & Hl) <-. unfold progress_lines in *.
  rewrite List.filter_app, length_app. lia.
Qed.

Lemma print_progress_lines w w' (u : unit) n :
  print progress w = (w', Ok u) → progress_lines (console w) = n →
  progress_lines (console w') = S n.
Proof.
  unfold print. intros [= <- _] <-. simpl. unfold progress_lines.
  rewrite List.filter_app, length_app. simpl. lia.
Qed.

Lemma run_quiet {A} (m : M A) w w' r : m w = (w', r) → quiet w (m w).1 → quiet w w'.
Proof. by intros ->. Qed.

Lemma Lab_main_progress_lines api w w' :
  Lab.main api w = (w', Ok tt) →
  progress_lines (console w') = (progress_lines (console w) + 4)%nat.
Proof.
  unfold Lab.main. intros H.
  step H as w0 u0 H0. eapply print_progress_lines in H0; [|reflexivity].
  step H as w1 r1 H1. destruct r1 as [file_path_1 new_last_id_1].
  eapply run_quiet, quiet_lines in H1;
    [|exact H0|apply Lab_extract_data_quiet].
  step H as w2 r2 H2. destruct r2 as [file_path_2 new_last_id_2].
  eapply run_quiet, quiet_lines in H2;
    [|exact H1|apply Lab_extract_data_quiet].
  step H as w3 u3 H3. eapply print_progress_lines in H3; [|exact H2].
  step H as w4 u4 H4.
  eapply run_quiet, quiet_lines in H4; [|exact H3|apply Lab_load_data_quiet].
  step H as w5 u5 H5.
  eapply run_quiet, quiet_lines in H5; [|exact H4|apply Lab_load_data_quiet].
  step H as w6 u6 H6. eapply print_progress_lines in H6; [|exact H5].
  step H as w7 u7 H7.
  eapply run_quiet, quiet_lines in H7; [|exact H6|apply Lab_transform_data_quiet].
  eapply print_progress_lines in H; [|exact H7]. rewrite H. lia.
Qed.

Lemma Solutions_main_progress_lines api w w' :
  Solutions.main api w = (w', Ok tt) →
  progress_lines (console w') = (progress_lines (console w) + 5)%nat.
Proof.
  unfold Solutions.main. intros H.
  step H as w0 u0 H0. eapply print_progress_lines in H0; [|reflexivity].
  step H as w1 r1 H1. destruct r1 as [file_path_1 new_last_id_1].
  eapply run_quiet, quiet_lines in H1;
    [|exact H0|apply Solutions_extract_data_quiet].
  step H as w1' u1 H1'. eapply print_progress_lines in H1'; [|exact H1].
  step H as w2 r2 H2. destruct r2 as [file_path_2 new_last_id_2].
  eapply run_quiet, quiet_lines in H2;
    [|exact H1'|apply Solutions_extract_data_quiet].
  step H as w3 u3 H3. eapply print_progress_lines in H3; [|exact H2].
  step H as w4 u4 H4.
  eapply run_quiet, quiet_lines in H4; [|exact H3|apply Solutions_load_data_quiet].
  step H as w5 u5 H5.
  eapply run_quiet, quiet_lines in H5; [|exact H4|apply Solutions_load_data_quiet].
  step H as w6 u6 H6. eapply print_progress_lines in H6; [|exact H5].
  step H as w7 u7 H7.
  eapply run_quiet, quiet_lines in H7;
    [|exact H6|apply Solutions_transform_data_quiet].
  eapply print_progress_lines in H; [|exact H7]. rewrite H. lia.
Qed.

Ltac load_prints_inv f B :=
  match goal with
  | |- context [ {| db := {| metadata := ?m; pokedex := ?p |}; files := ?fs;
                    glob := ?gl |} ] =>
      intros H; destruct p as [rows|]; simpl in *;
      (destruct (DuckDB.read_parquet gl fs f) as [tbl|]; simpl in *; [|done]);
      (destruct (mapM (DuckDB.select_row B) tbl) as [new|]; simpl in *; [|done]);
      (destruct m as [col|]; simpl in *; [|done]);
      (destruct (mapM _ col) as [col'|]; simpl in *; [|done]);
      destruct col' as [|v col']; simpl in *;
      try (destruct (DuckDB.cast_integer B) as [b|]; simpl in *; [|done]);
      simplify_eq; simpl; by rewrite <- app_assoc
  end.

Lemma Lab_load_data_prints f B w w' :
  Lab.load_data f B w = (w', Ok tt) → load_prints 3 B w w'.
Proof.
  unfold Lab.load_data, load_prints.
  destruct w as [[m p s] fs gl rq co]. run_load. load_prints_inv f B.
Qed.

Lemma Solutions_load_data_prints f B w w' :
  Solutions.load_data f B w = (w', Ok tt) → load_prints 5 B w w'.
Proof.
  unfold Solutions.load_data, load_prints.
  destruct w as [[m p s] fs gl rq co]. run_load. load_prints_inv f B.
Qed.

(** The previews are not part of what agrees: over a page of four
    records [lab-m1w1.py] shows three loaded rows and [solutions.py]
    all four. *)
Example previews_differ :
  console (Lab.load_data "page.parquet" 4 four_rows_world).1
  ≠ console (Solutions.load_data "page.parquet" 4 four_rows_world).1.
Proof. vm_compute. discriminate. Qed.

(** ** The rows a load appends *)

Lemma select_row_Some B r row :
  DuckDB.select_row B r = Some row ↔
  DuckDB.cast_integer B = Some B ∧
  ∃ id, embedded_id r = Some id ∧ row = tagged B r id.
Proof.
  unfold DuckDB.select_row, embedded_id, tagged. split.
  - destruct (DuckDB.cast_integer B) as [b|] eqn:Hb; simpl; [|done].
    apply cast_integer_Some in Hb as ->.
    destruct (DuckDB.cast_regexp_extract _) as [id|]; simpl; [|done].
    intros [= <-]. eauto.
  - intros [-> (id & -> & ->)]. done.
Qed.

Lemma select_rows_Some B tbl new :
  mapM (DuckDB.select_row B) tbl = Some new →
  ∃ ids, mapM embedded_id tbl = Some ids ∧
         new = zip_with (tagged B) tbl ids ∧
         pokemon_id <$> new = ids ∧
         length new = length tbl.
Proof.
  intros H%mapM_Some_1.
  induction H as [|r row tbl new Hrow _ (ids & Hids & Hnew & Hom & Hlen)].
  - by exists [].
  - apply select_row_Some in Hrow as (_ & id & Hid & ->).
    exists (id :: ids). simpl. rewrite Hid, Hids. simpl. split_and!.
    + done.
    + by rewrite <- Hnew.
    + f_equal. exact Hom.
    + by rewrite Hlen.
Qed.

Lemma select_rows_in_range B tbl ids :
  DuckDB.INT32_MIN ≤ B ≤ DuckDB.INT32_MAX →
  mapM embedded_id tbl = Some ids →
  mapM (DuckDB.select_row B) tbl = Some (zip_with (tagged B) tbl ids).
Proof.
  intros HB%cast_integer_in_range H%mapM_Some_1. apply mapM_Some_2.
  induction H as [|r id tbl ids Hid _ IH]; simpl; constructor; [|done].
  apply select_row_Some. eauto.
Qed.

(** ** C4 and C10: the summary *)

Lemma omap_id_fmap (rows : list pokedex_row) :
  omap id (pokemon_id <$> rows) = ids_of rows.
Proof.
  unfold ids_of. induction rows as [|r rows IH]; [done|].
  rewrite fmap_cons. simpl. destruct (pokemon_id r); simpl; by f_equal.
Qed.

Lemma transform_data_run w rows :
  pokedex (db w) = Some rows →
  summarised w {| total_pokemon := DuckDB.COUNT rows;
                  first_id := DuckDB.MIN (pokemon_id <$> rows);
                  last_id := DuckDB.MAX (pokemon_id <$> rows) |}.
Proof.
  destruct w as [[m p s] fs gl rq co]. simpl. intros ->.
  unfold summarised, Lab.transform_data, Solutions.transform_data, bind, ret,
    print, DuckDB.create_or_replace_pokemon_stats, DuckDB.select_pokemon_stats,
    DuckDB.statement. simpl. eauto 10.
Qed.

Lemma loads_effect f B w w' : loads f B w w' → load_effect w w' f B.
Proof. intros [H|H]; [by apply Lab_load_data_inv | by apply Solutions_load_data_inv]. Qed.

(** C4: whatever [pokedex] and [pokemon_stats] hold, [transform_data]
    returns and leaves in [pokemon_stats] the single row made of the
    number of rows of [pokedex], the least id and the greatest id.  In
    particular, two loads into a [pokedex] without rows, of files of
    [n1] and [n2] records, are summarised by the count [n1 + n2] and by
    the least and the greatest of the ids of both files (whether or not
    ids are shared: no row is dropped; a NULL id is counted as a row and
    passed over by the least and the greatest). *)
Theorem transform_data_summary :
  (∀ w rows,
     pokedex (db w) = Some rows →
     ∃ s, summarised w s ∧
          total_pokemon s = Z.of_nat (length rows) ∧
          is_minimum (ids_of rows) (first_id s) ∧
          is_maximum (ids_of rows) (last_id s)) ∧
  (∀ w0 w1 w2 f1 f2 B1 B2 tbl1 tbl2,
     default [] (pokedex (db w0)) = [] →
     read_file w0 f1 = Some tbl1 →
     read_file w0 f2 = Some tbl2 →
     loads f1 B1 w0 w1 →
     loads f2 B2 w1 w2 →
     ∃ ids1 ids2 s,
       mapM embedded_id tbl1 = Some ids1 ∧
       mapM embedded_id tbl2 = Some ids2 ∧
       summarised w2 s ∧
       total_pokemon s = Z.of_nat (length tbl1) + Z.of_nat (length tbl2) ∧
       is_minimum (omap id (ids1 ++ ids2)) (first_id s) ∧
       is_maximum (omap id (ids1 ++ ids2)) (last_id s)).
Proof.
  assert (Hgeneral : ∀ w rows,
     pokedex (db w) = Some rows →
     ∃ s, summarised w s ∧
          total_pokemon s = Z.of_nat (length rows) ∧
          is_minimum (ids_of rows) (first_id s) ∧
          is_maximum (ids_of rows) (last_id s)).
  { intros w rows Hrows. eexists. split; [by apply transform_data_run|].
    simpl. rewrite <- omap_id_fmap.
    split_and!; [done | apply MIN_is_minimum | apply MAX_is_maximum]. }
  split; [exact Hgeneral|].
  intros w0 w1 w2 f1 f2 B1 B2 tbl1 tbl2 Hempty Hf1 Hf2 H1 H2.
  apply loads_effect in H1
    as (t1 & new1 & c1 & Ht1 & Hnew1 & _ & Hdb1 & Hfs1 & _ & Hgl1).
  apply loads_effect in H2 as (t2 & new2 & c2 & Ht2 & Hnew2 & _ & Hdb2 & _).
  unfold read_file in *. rewrite Hfs1, Hgl1 in Ht2. simplify_eq.
  apply select_rows_Some in Hnew1 as (ids1 & Hids1 & _ & Hom1 & Hlen1).
  apply select_rows_Some in Hnew2 as (ids2 & Hids2 & _ & Hom2 & Hlen2).
  destruct (Hgeneral w2 (new1 ++ new2)) as (s & Hs & Hcount & Hmin & Hmax).
  { rewrite Hdb2, Hdb1. simpl. by rewrite Hempty. }
  exists ids1, ids2, s.
  rewrite <- omap_id_fmap, fmap_app, Hom1, Hom2 in Hmin, Hmax.
  rewrite length_app, Hlen1, Hlen2, Nat2Z.inj_add in Hcount. done.
Qed.

Lemma transform_data_summary_witness :
  ∃ s, summarised
         (Lab.load_data "pokedex_030.parquet" 60
            (Lab.load_data "pokedex_000.parquet" 30 two_pages_world).1).1 s ∧
       total_pokemon s = 2 + 1.
Proof.
  destruct transform_data_summary as [_ H].
  destruct (H two_pages_world
              (Lab.load_data "pokedex_000.parquet" 30 two_pages_world).1
              (Lab.load_data "pokedex_030.parquet" 60
                 (Lab.load_data "pokedex_000.parquet" 30 two_pages_world).1).1
              "pokedex_000.parquet" "pokedex_030.parquet" 30 60
              [bulbasaur; ivysaur] [venusaur])
    as (ids1 & ids2 & s & _ & _ & Hs & Hcount & _).
  - reflexivity.
  - vm_compute. reflexivity.
  - vm_compute. reflexivity.
  - left. vm_compute. reflexivity.
  - left. vm_compute. reflexivity.
  - exists s. split; [exact Hs | exact Hcount].
Defined.

(** C10: over a [pokedex] that exists and has no row, [transform_data]
    returns and [pokemon_stats] holds exactly one row: count 0, NULL
    least id, NULL greatest id. *)
Theorem transform_data_empty w :
  pokedex (db w) = Some [] →
  summarised w {| total_pokemon := 0; first_id := None; last_id := None |}.
Proof. intros H. exact (transform_data_run w [] H). Qed.

Lemma transform_data_empty_witness :
  summarised (DuckDB.create_table_pokedex fresh_world).1
    {| total_pokemon := 0; first_id := None; last_id := None |}.
Proof. apply transform_data_empty. reflexivity. Defined.

(** ** The matcher finds the leftmost match *)

Section Matcher.
Import Pattern.

Lemma append_String c (a b : string) : String c a +:+ b = String c (a +:+ b).
Proof. reflexivity. Qed.

Lemma is_digit_true c : DuckDB.is_digit c = true ↔ (48 ≤ nat_of_ascii c ≤ 57)%nat.
Proof.
  unfold DuckDB.is_digit. rewrite andb_true_iff, !Nat.leb_le. done.
Qed.

Lemma strip_prefix_Some p s r : DuckDB.strip_prefix p s = Some r ↔ s = p +:+ r.
Proof.
  revert s. induction p as [|a p IH]; intros s; simpl.
  - split; [by intros [= ->] | by intros ->].
  - destruct s as [|b s]; [split; discriminate|].
    destruct (Ascii.eqb_spec a b) as [->|Hne].
    + rewrite IH. split; [by intros -> | by intros [= ->]].
    + split; [discriminate | intros [= -> _]; done].
Qed.

Lemma span_digits_sound s d r :
  DuckDB.span_digits s = (d, r) →
  s = d +:+ r ∧ all_digits d.
Proof.
  revert d r. induction s as [|c s IH]; intros d r; simpl.
  - intros [= <- <-]. done.
  - destruct (DuckDB.is_digit c) eqn:Hc.
    + destruct (DuckDB.span_digits s) as [d' r'].
      intros [= <- <-]. destruct (IH d' r' eq_refl) as [-> Hd].
      split; [done|]. split; [by apply is_digit_true | done].
    + intros [= <- <-]. done.
Qed.

Lemma span_digits_complete d c r :
  all_digits d → DuckDB.is_digit c = false →
  DuckDB.span_digits (d +:+ String c r) = (d, String c r).
Proof.
  intros Hd Hc. induction d as [|a d IH]; simpl.
  - by rewrite Hc.
  - destruct Hd as [Ha Hd]. apply is_digit_true in Ha. rewrite Ha.
    by rewrite (IH Hd).
Qed.

Lemma match_here_Some s d :
  DuckDB.match_here s = Some d ↔ ∃ post, matches_at s EmptyString d post.
Proof.
  unfold DuckDB.match_here, matches_at. split.
  - destruct (DuckDB.strip_prefix "/pokemon/" s) as [r|] eqn:Hr; [|done].
    apply strip_prefix_Some in Hr as ->.
    destruct (DuckDB.span_digits r) as [d' r'] eqn:Hspan.
    apply span_digits_sound in Hspan as [-> Hd'].
    destruct d' as [|c d']; [done|].
    destruct r' as [|b r']; [done|].
    destruct (Ascii.eqb_spec b "/") as [->|Hne].
    + intros [= <-]. exists r'. done.
    + destruct b as [[] [] [] [] [] [] [] []]; done.
  - intros (post & -> & Hne & Hd).
    assert (DuckDB.strip_prefix "/pokemon/" ("" +:+ "/pokemon/" +:+ d +:+ "/" +:+ post)
            = Some (d +:+ String "/" post)) as -> by by apply strip_prefix_Some.
    rewrite span_digits_complete by done.
    destruct d; done.
Qed.

Lemma match_here_None s d post : DuckDB.match_here s = None → ¬ matches_at s EmptyString d post.
Proof.
  intros Hnone Hm.
  assert (DuckDB.match_here s = Some d) by (apply match_here_Some; eauto).
  congruence.
Qed.

Lemma matches_at_cons c s pre d post :
  matches_at (String c s) (String c pre) d post ↔ matches_at s pre d post.
Proof.
  unfold matches_at.
  change (String c pre +:+ "/pokemon/" +:+ d +:+ "/" +:+ post)
    with (String c (pre +:+ "/pokemon/" +:+ d +:+ "/" +:+ post)).
  split; intros (Hs & ? & ?); split_and!; try done; [by injection Hs | by f_equal].
Qed.

Lemma matches_at_head c s pre d post :
  matches_at (String c s) pre d post →
  pre = EmptyString ∨ ∃ pre', pre = String c pre' ∧ matches_at s pre' d post.
Proof.
  destruct pre as [|a pre]; [by left|]. intros Hm. right. exists pre.
  assert (a = c) as ->
    by (destruct Hm as [Hs _]; rewrite append_String in Hs; by injection Hs).
  split; [done|]. by apply (proj1 (matches_at_cons c s pre d post)).
Qed.

Lemma regexp_capture_Some s d :
  DuckDB.regexp_capture s = Some d → first_capture s d.
Proof.
  induction s as [|c s IH]; simpl.
  - destruct (DuckDB.match_here "") eqn:Hh; [|done]. vm_compute in Hh. done.
  - destruct (DuckDB.match_here (String c s)) as [d'|] eqn:Hh.
    + intros [= ->]. apply match_here_Some in Hh as [post Hm].
      exists EmptyString, post. split; [done|]. intros; simpl; lia.
    + intros (pre & post & Hm & Hmin)%IH.
      exists (String c pre), post.
      split; [by apply (proj2 (matches_at_cons c _ _ _ _))|].
      intros pre' d' post' Hm'.
      destruct (matches_at_head _ _ _ _ _ Hm') as [->|(p & -> & Hp)].
      * by apply match_here_None in Hm'.
      * simpl. specialize (Hmin _ _ _ Hp). lia.
Qed.

Lemma regexp_capture_None s :
  DuckDB.regexp_capture s = None → no_match s.
Proof.
  unfold no_match. induction s as [|c s IH]; simpl.
  - intros _ pre d post (Hs & _). destruct pre; discriminate.
  - destruct (DuckDB.match_here (String c s)) as [d'|] eqn:Hh; [done|].
    intros Hnone pre d post Hm.
    destruct (matches_at_head _ _ _ _ _ Hm) as [->|(p & -> & Hp)].
    + by apply match_here_None in Hm.
    + by apply (IH Hnone) in Hp.
Qed.

(** The matcher finds the group of the leftmost match and nothing else. *)
Lemma regexp_capture_first s d :
  DuckDB.regexp_capture s = Some d ↔ first_capture s d.
Proof.
  split; [apply regexp_capture_Some|].
  intros (pre & post & Hm & Hmin). revert s Hm Hmin.
  induction pre as [|c pre IH]; intros s Hm Hmin.
  - assert (DuckDB.match_here s = Some d) as Hh by (apply match_here_Some; eauto).
    destruct s; [by vm_compute in Hh | simpl; by rewrite Hh].
  - destruct s as [|c' s]; [destruct Hm; discriminate|].
    assert (c' = c) as ->
      by (destruct Hm as [Hs _]; rewrite append_String in Hs; by injection Hs).
    apply (proj1 (matches_at_cons _ _ _ _ _)) in Hm. simpl.
    destruct (DuckDB.match_here (String c s)) as [d'|] eqn:Hh.
    + apply match_here_Some in Hh as [post' Hm'].
      specialize (Hmin _ _ _ Hm'). simpl in Hmin. lia.
    + apply IH; [done|]. intros pre' d' post' Hm'.
      apply (proj2 (matches_at_cons c _ _ _ _)) in Hm'. specialize (Hmin _ _ _ Hm').
      simpl in Hmin. lia.
Qed.

Lemma no_match_capture s : no_match s ↔ DuckDB.regexp_capture s = None.
Proof.
  split; [|apply regexp_capture_None].
  intros Hno. destruct (DuckDB.regexp_capture s) as [d|] eqn:Hc; [|done].
  apply regexp_capture_Some in Hc as (pre & post & Hm & _). by apply Hno in Hm.
Qed.

Lemma digits_acc_value acc d :
  all_digits d →
  DuckDB.digits_acc acc d
  = Some (acc * 10 ^ Z.of_nat (String.length d) + decimal_value d).
Proof.
  revert acc. induction d as [|c d IH]; intros acc Hd; simpl.
  - f_equal. lia.
  - destruct Hd as [Hc Hd]. apply is_digit_true in Hc. rewrite Hc.
    rewrite (IH _ Hd). f_equal.
    rewrite Nat2Z.inj_succ, Z.pow_succ_r by lia. lia.
Qed.

End Matcher.

(** ** The id of a record *)

Lemma decimal_value_nonneg d : Pattern.all_digits d → 0 ≤ Pattern.decimal_value d.
Proof.
  induction d as [|c d IH]; simpl; [done|]. intros [Hc Hd].
  specialize (IH Hd).
  assert (0 ≤ 10 ^ Z.of_nat (String.length d)) by (apply Z.pow_nonneg; lia).
  assert (0 ≤ Z.of_nat (nat_of_ascii c) - 48) by lia.
  nia.
Qed.

Lemma cast_varchar_integer_digits d :
  d ≠ EmptyString → Pattern.all_digits d →
  DuckDB.cast_varchar_integer d = DuckDB.cast_integer (Pattern.decimal_value d).
Proof.
  intros Hne Hd. unfold DuckDB.cast_varchar_integer.
  destruct d as [|c d]; [done|].
  rewrite (digits_acc_value 0 _ Hd). simpl. done.
Qed.

(** The cast of the capture succeeds exactly when the locator matches
    and the digits of the leftmost match, read as a decimal number, fit
    an [INTEGER]; it yields that number. *)
Lemma cast_capture_Some u id :
  DuckDB.cast_varchar_integer (DuckDB.regexp_extract u) = Some id ↔
  ∃ d, Pattern.first_capture u d ∧
       id = Pattern.decimal_value d ∧
       Pattern.decimal_value d ≤ DuckDB.INT32_MAX.
Proof.
  unfold DuckDB.regexp_extract. split.
  - destruct (DuckDB.regexp_capture u) as [d|] eqn:Hc; simpl; [|done].
    pose proof (regexp_capture_Some _ _ Hc) as Hfirst.
    destruct Hfirst as (pre & post & (Hs & Hne & Hd) & Hmin).
    rewrite cast_varchar_integer_digits by done.
    intros Hcast. pose proof (cast_integer_Some _ _ Hcast) as ->.
    exists d. split_and!; [by apply regexp_capture_first | done |].
    unfold DuckDB.cast_integer in Hcast. case_match; [|done].
    apply andb_true_iff in H as [_ H]. by apply Z.leb_le in H.
  - intros (d & Hfirst & -> & Hmax).
    pose proof Hfirst as (pre & post & (Hs & Hne & Hd) & Hmin).
    apply regexp_capture_first in Hfirst as ->. simpl.
    rewrite cast_varchar_integer_digits by done.
    apply cast_integer_in_range. split; [|done].
    pose proof (decimal_value_nonneg d Hd). unfold DuckDB.INT32_MIN. lia.
Qed.

(** [load_data] derives an id from a record whose locator is NULL, the
    NULL id, and from a record whose locator matches with digits that
    fit an [INTEGER], the number they spell; from no other record. *)
Lemma embedded_id_Some r id :
  embedded_id r = Some id ↔
  match url r with
  | None => id = None
  | Some u => ∃ d, Pattern.first_capture u d ∧
                   id = Some (Pattern.decimal_value d) ∧
                   Pattern.decimal_value d ≤ DuckDB.INT32_MAX
  end.
Proof.
  unfold embedded_id, DuckDB.cast_regexp_extract.
  destruct (url r) as [u|]; [|split; congruence].
  destruct (DuckDB.cast_varchar_integer (DuckDB.regexp_extract u)) as [n|] eqn:Hn;
    simpl.
  - apply cast_capture_Some in Hn as (d & Hfirst & -> & Hmax). split.
    + intros [= <-]. eauto.
    + intros (d' & Hfirst' & -> & _).
      apply regexp_capture_first in Hfirst, Hfirst'. congruence.
  - split; [done|]. intros (d & Hfirst & -> & Hmax).
    assert (DuckDB.cast_varchar_integer (DuckDB.regexp_extract u)
            = Some (Pattern.decimal_value d)) as Hcast
      by (apply cast_capture_Some; eauto).
    congruence.
Qed.

Lemma embedded_id_locator r id :
  embedded_id r = Some id → id_of_locator (url r) id.
Proof.
  intros H%embedded_id_Some. unfold id_of_locator.
  destruct (url r) as [u|]; [|done]. destruct H as (d & ? & ? & _). eauto.
Qed.

Lemma embedded_id_no_match r u :
  url r = Some u → Pattern.no_match u → embedded_id r = None.
Proof.
  intros Hu Hno%no_match_capture.
  unfold embedded_id, DuckDB.cast_regexp_extract, DuckDB.regexp_extract.
  by rewrite Hu, Hno.
Qed.

Lemma embedded_id_too_large r u d :
  url r = Some u →
  Pattern.first_capture u d →
  DuckDB.INT32_MAX < Pattern.decimal_value d →
  embedded_id r = None.
Proof.
  intros Hu Hfirst Hbig. destruct (embedded_id r) as [id|] eqn:Hid; [|done].
  apply embedded_id_Some in Hid. rewrite Hu in Hid.
  destruct Hid as (d' & Hfirst' & _ & Hmax).
  apply regexp_capture_first in Hfirst, Hfirst'.
  assert (d' = d) as -> by congruence. lia.
Qed.

(** ** What a load appends, returning or not *)

Ltac load_cases f B :=
  match goal with
  | |- context [ {| db := {| metadata := ?m; pokedex := ?p |}; files := ?fs;
                    glob := ?gl |} ] =>
      destruct p as [rows|]; simpl;
      (destruct (DuckDB.read_parquet gl fs f) as [tbl|]; simpl;
       [|by rewrite ?app_nil_r]);
      (destruct (mapM (DuckDB.select_row B) tbl) as [new|]; simpl;
       [|by rewrite ?app_nil_r]);
      (destruct m as [col|]; simpl; [|done]);
      (destruct (mapM _ col) as [col'|]; simpl; [|done]);
      destruct col' as [|v col']; simpl; try done;
      destruct (DuckDB.cast_integer B); done
  end.

Lemma Lab_load_data_pokedex f B w :
  pokedex (db (Lab.load_data f B w).1)
  = Some (default [] (pokedex (db w)) ++ appended f B w).
Proof.
  unfold Lab.load_data, appended, read_file.
  destruct w as [[m p s] fs gl rq co]. run_load. load_cases f B.
Qed.

Lemma Solutions_load_data_pokedex f B w :
  pokedex (db (Solutions.load_data f B w).1)
  = Some (default [] (pokedex (db w)) ++ appended f B w).
Proof.
  unfold Solutions.load_data, appended, read_file.
  destruct w as [[m p s] fs gl rq co]. run_load. load_cases f B.
Qed.

Lemma load_data_conversion_fails f B w tbl :
  read_file w f = Some tbl →
  mapM (DuckDB.select_row B) tbl = None →
  conversion_fails w (Lab.load_data f B w) ∧
  conversion_fails w (Solutions.load_data f B w).
Proof.
  unfold conversion_fails, Lab.load_data, Solutions.load_data, read_file.
  destruct w as [[m p s] fs gl rq co]. run_load. intros Hf Hnone.
  destruct p as [rows|]; simpl; rewrite Hf, Hnone; done.
Qed.

Lemma appended_from_file f B w row :
  row ∈ appended f B w →
  ∃ tbl r id, read_file w f = Some tbl ∧ r ∈ tbl ∧
              DuckDB.cast_integer B = Some B ∧
              embedded_id r = Some id ∧ row = tagged B r id.
Proof.
  unfold appended. intros Hrow.
  destruct (read_file w f) as [tbl|]; simpl in *; [|by apply elem_of_nil in Hrow].
  destruct (mapM (DuckDB.select_row B) tbl) as [new|] eqn:Hnew; simpl in *;
    [|by apply elem_of_nil in Hrow].
  apply mapM_Some_1 in Hnew.
  apply list_elem_of_lookup in Hrow as [i Hi].
  destruct (Forall2_lookup_r _ _ _ _ _ Hnew Hi) as (r & Hr & Hsel).
  apply select_row_Some in Hsel as (HB & id & Hid & ->).
  exists tbl, r, id. split_and!; try done.
  apply list_elem_of_lookup. eauto.
Qed.

(** ** C5: the id stored is the integer of the locator *)



(** A record whose locator is NULL is loaded, with a NULL id. *)
Example null_locator_loads :
  pokedex (db (Lab.load_data "pokedex_000.parquet" 30 unlocated_world).1)
  = Some [ tagged 30 bulbasaur (Some 1);
           {| pokedex_last_id := Some 30; pokemon_id := None;
              pokedex_name := Some "x"; pokedex_url := None |} ].
Proof. vm_compute. reflexivity. Qed.

(** ** C3: a file with a record that does not convert *)

(** C3, as stated, fails: every locator of the file matches, and the
    call raises and appends nothing. *)
Lemma all_or_nothing_fails :
  ¬ all_or_nothing Lab.load_data ∧ ¬ all_or_nothing Solutions.load_data.
Proof.
  assert (Hmatch : ∀ r, r ∈ [missingno] →
                        ∃ u d, url r = Some u ∧ Pattern.first_capture u d).
  { intros r ->%list_elem_of_singleton. eexists _, "99999999999".
    split; [reflexivity|]. by apply regexp_capture_first. }
  split; intros H;
    destruct (H "pokedex_000.parquet" 30 missingno_world [missingno]
                ltac:(by vm_compute))
      as [_ Hall];
    destruct (Hall Hmatch) as (new & Hrows & Hnew);
    vm_compute in Hrows; apply Forall2_length in Hnew;
    destruct new; simplify_eq.
Qed.

(** C3, amended: when a record of the file has a locator that is not
    NULL and does not match, or that matches with digits beyond the
    range of [INTEGER], [load_data] raises the conversion error of the
    cast, and neither a row nor the checkpoint is written.  When every
    locator that is not NULL matches with digits within the range, and
    the batch offset is within the range too, every record is appended,
    in order, tagged with the offset and with the integer of its
    locator; a record whose locator is NULL is appended as well, with a
    NULL id. *)
Theorem load_data_all_or_nothing f B w tbl :
  read_file w f = Some tbl →
  ((∃ r u, r ∈ tbl ∧ url r = Some u ∧
           (Pattern.no_match u ∨
            ∃ d, Pattern.first_capture u d ∧
                 DuckDB.INT32_MAX < Pattern.decimal_value d)) →
   conversion_fails w (Lab.load_data f B w) ∧
   conversion_fails w (Solutions.load_data f B w)) ∧
  ((∀ r u, r ∈ tbl → url r = Some u →
           ∃ d, Pattern.first_capture u d ∧
                Pattern.decimal_value d ≤ DuckDB.INT32_MAX) →
   DuckDB.INT32_MIN ≤ B ≤ DuckDB.INT32_MAX →
   ∃ new,
     pokedex (db (Lab.load_data f B w).1)
     = Some (default [] (pokedex (db w)) ++ new) ∧
     pokedex (db (Solutions.load_data f B w).1)
     = Some (default [] (pokedex (db w)) ++ new) ∧
     Forall2 (λ r row, ∃ id, id_of_locator (url r) id ∧ row = tagged B r id)
       tbl new).
Proof.
  intros Hf. split.
  - intros (r & u & Hr & Hu & Hbad). apply (load_data_conversion_fails f B w tbl Hf).
    apply mapM_None_2, Exists_exists. exists r. split; [done|].
    assert (embedded_id r = None) as Hid.
    { destruct Hbad as [Hno|(d & Hfirst & Hbig)];
        [by eapply embedded_id_no_match | by eapply embedded_id_too_large]. }
    destruct (DuckDB.select_row B r) as [row|] eqn:Hrow; [|done].
    apply select_row_Some in Hrow as (_ & id & Hid' & _). congruence.
  - intros Hall HB.
    assert (∃ ids, mapM embedded_id tbl = Some ids ∧
                   Forall2 (λ r id, id_of_locator (url r) id) tbl ids)
      as (ids & Hids & Hfirst).
    { clear Hf. induction tbl as [|r tbl IH]; [by exists []|].
      destruct IH as (ids & Hids & Hfirst).
      { intros r' u' Hr'. apply Hall. by right. }
      assert (∃ id, embedded_id r = Some id) as [id Hid].
      { destruct (url r) as [u|] eqn:Hu.
        - destruct (Hall r u) as (d & Hd & Hmax); [left|done|].
          exists (Some (Pattern.decimal_value d)).
          apply embedded_id_Some. rewrite Hu. eauto.
        - exists None. apply embedded_id_Some. by rewrite Hu. }
      exists (id :: ids). simpl. rewrite Hid, Hids. simpl.
      split; [done|]. constructor; [|done]. by apply embedded_id_locator. }
    exists (zip_with (tagged B) tbl ids).
    rewrite Lab_load_data_pokedex, Solutions_load_data_pokedex.
    unfold appended. rewrite Hf. simpl.
    rewrite (select_rows_in_range B tbl ids HB Hids). simpl. split_and!; try done.
    clear Hids Hall Hf. induction Hfirst as [|r id tbl ids Hid _ IH];
      simpl; constructor; eauto.
Qed.

Lemma load_data_all_or_nothing_witness :
  (conversion_fails nameless_world
     (Lab.load_data "pokedex_030.parquet" 60 nameless_world) ∧
   conversion_fails nameless_world
     (Solutions.load_data "pokedex_030.parquet" 60 nameless_world)) ∧
  (∃ new,
     pokedex (db (Lab.load_data "pokedex_000.parquet" 30 unlocated_world).1)
     = Some (default [] (pokedex (db unlocated_world)) ++ new) ∧
     pokedex (db (Solutions.load_data "pokedex_000.parquet" 30 unlocated_world).1)
     = Some (default [] (pokedex (db unlocated_world)) ++ new) ∧
     Forall2 (λ r row, ∃ id, id_of_locator (url r) id ∧ row = tagged 30 r id)
       [bulbasaur; unlocated] new).
Proof.
  split.
  - apply (load_data_all_or_nothing "pokedex_030.parquet" 60 nameless_world
             [ivysaur; nameless]).
    + vm_compute. reflexivity.
    + eexists nameless, _. split_and!.
      * right. left.
      * reflexivity.
      * left. apply no_match_capture. vm_compute. reflexivity.
  - apply (load_data_all_or_nothing "pokedex_000.parquet" 30 unlocated_world
             [bulbasaur; unlocated]).
    + vm_compute. reflexivity.
    + intros r u [->|[->|[]%elem_of_nil]%elem_of_cons]%elem_of_cons [= <-].
      exists "1". split.
      * apply regexp_capture_first. vm_compute. reflexivity.
      * vm_compute. discriminate.
    + vm_compute. split; discriminate.
Defined.

(** ** Decimal strings: [str] and [zfill] *)

Section Decimal.

Local Abbreviation sou := NilEmpty.string_of_uint.

Lemma str_digits n : Py.str n = sign_of n +:+ sou (digits_of n).
Proof.
  destruct n as [|p|p]; unfold Py.str, sign_of; simpl; [done| |].
  - pose proof (DecimalPos.Unsigned.to_uint_nonnil p). by destruct (Pos.to_uint p).
  - pose proof (DecimalPos.Unsigned.to_uint_nonnil p). by destruct (Pos.to_uint p).
Qed.

Lemma digits_of_nonnil n : digits_of n ≠ Nil.
Proof. destruct n; [done | apply DecimalPos.Unsigned.to_uint_nonnil ..]. Qed.

Lemma digits_of_value n : Z.of_uint (digits_of n) = Z.abs n.
Proof.
  destruct n as [|p|p]; simpl; [done| |];
    unfold Z.of_uint; by rewrite DecimalPos.Unsigned.of_to.
Qed.

Lemma append_nil_l (s : string) : "" +:+ s = s.
Proof. reflexivity. Qed.

Lemma length_append (a b : string) :
  String.length (a +:+ b) = (String.length a + String.length b)%nat.
Proof. induction a as [|c a IH]; simpl; [done | by rewrite IH]. Qed.

Lemma length_zeros k : String.length (Py.zeros k) = k.
Proof. induction k as [|k IH]; simpl; [done | by rewrite IH]. Qed.

Lemma length_sou u : String.length (sou u) = nb_digits u.
Proof. induction u; simpl; by rewrite ?IHu. Qed.

Lemma sou_head u :
  u ≠ Nil → ∃ c rest, sou u = String c rest ∧ Py.is_sign c = false.
Proof. destruct u; [done | intros _; simpl; eauto ..]. Qed.

(** The padded string: sign, zeros, digits. *)
Lemma zfill_str w n :
  Py.zfill w (Py.str n)
  = sign_of n +:+ Py.zeros (w - String.length (Py.str n)) +:+ sou (digits_of n).
Proof.
  unfold Py.zfill. destruct (Nat.leb_spec w (String.length (Py.str n))) as [Hle|Hlt].
  - replace (w - String.length (Py.str n))%nat with 0%nat by lia. apply str_digits.
  - remember (w - String.length (Py.str n))%nat as k eqn:Hk. clear Hk Hlt.
    simpl. rewrite str_digits. unfold sign_of.
    destruct (sou_head _ (digits_of_nonnil n)) as (c & rest & Hsou & Hc).
    destruct (n <? 0); [done|]. rewrite Hsou.
    change ("" +:+ String c rest) with (String c rest). cbv beta iota.
    by rewrite Hc.
Qed.

Lemma length_zfill w s :
  String.length (Py.zfill w s) = Nat.max w (String.length s).
Proof.
  unfold Py.zfill. destruct (Nat.leb_spec w (String.length s)) as [Hle|Hlt]; [lia|].
  destruct s as [|c s]; simpl in *.
  - rewrite length_zeros. lia.
  - destruct (Py.is_sign c); simpl; rewrite ?length_append, length_zeros; simpl; lia.
Qed.

Lemma read_digits_padded k u :
  read_digits (Py.zeros k +:+ sou u) = Some (Z.of_uint u).
Proof.
  unfold read_digits. induction k as [|k IH].
  - change (Py.zeros 0 +:+ sou u) with (sou u). by rewrite NilEmpty.usu.
  - change (Py.zeros (S k) +:+ sou u) with (String "0" (Py.zeros k +:+ sou u)).
    simpl.
    destruct (NilEmpty.uint_of_string (Py.zeros k +:+ sou u)) as [v|]; [|done].
    simpl in *. done.
Qed.

Lemma read_digits_minus s : read_digits (String "-" s) = None.
Proof.
  unfold read_digits. simpl. by destruct (NilEmpty.uint_of_string s).
Qed.

(** Two integers padded to the same string are the same integer. *)
Lemma zfill_str_inj w n1 n2 :
  Py.zfill w (Py.str n1) = Py.zfill w (Py.str n2) → n1 = n2.
Proof.
  rewrite !zfill_str. unfold sign_of.
  pose proof (digits_of_value n1) as H1. pose proof (digits_of_value n2) as H2.
  destruct (Z.ltb_spec n1 0), (Z.ltb_spec n2 0); intros Heq;
    rewrite ?append_String, ?append_nil_l in Heq.
  - injection Heq as Heq. apply (f_equal read_digits) in Heq.
    rewrite !read_digits_padded in Heq. injection Heq as Heq. lia.
  - apply (f_equal read_digits) in Heq.
    rewrite read_digits_minus, read_digits_padded in Heq. done.
  - apply (f_equal read_digits) in Heq.
    rewrite read_digits_minus, read_digits_padded in Heq. done.
  - apply (f_equal read_digits) in Heq.
    rewrite !read_digits_padded in Heq. injection Heq as Heq. lia.
Qed.

(** A number below [10 ^ w] has at most [w] digits. *)
Lemma of_uint_acc_lower d acc :
  Z.pos acc * 10 ^ Z.of_nat (nb_digits d) ≤ Z.pos (Pos.of_uint_acc d acc).
Proof.
  revert acc. induction d; intros acc; simpl nb_digits; simpl Pos.of_uint_acc;
    [simpl; lia | ..];
    rewrite Nat2Z.inj_succ, Z.pow_succ_r by lia;
    (etrans; [|apply IHd]);
    assert (0 ≤ 10 ^ Z.of_nat (nb_digits d)) by (apply Z.pow_nonneg; lia);
    nia.
Qed.

Lemma to_uint_lower p :
  10 ^ Z.of_nat (nb_digits (Pos.to_uint p) - 1) ≤ Z.pos p.
Proof.
  pose proof (DecimalPos.Unsigned.of_to p) as Hof.
  pose proof (DecimalPos.Unsigned.to_of (Pos.to_uint p)) as Hnorm.
  rewrite Hof in Hnorm. simpl in Hnorm.
  pose proof (DecimalPos.Unsigned.to_uint_nonzero p) as Hnz.
  destruct (Pos.to_uint p) as [|l|l|l|l|l|l|l|l|l|l] eqn:Hu; simpl nb_digits.
  3-11: replace (S (nb_digits l) - 1)%nat with (nb_digits l) by lia;
        simpl in Hof; injection Hof as <-;
        (etrans; [|apply of_uint_acc_lower]); lia.
  - simpl. lia.
  - exfalso. rewrite unorm_D0 in Hnorm. unfold unorm in Hnorm.
    destruct (nzhead l) eqn:Hl; try (by apply nzhead_nonzero in Hl);
      try (by rewrite <- Hnorm in Hl; apply nzhead_nonzero in Hl).
    by rewrite Hnorm in Hnz.
Qed.

Lemma length_str_bound w n :
  (1 ≤ w)%nat → 0 ≤ n < 10 ^ Z.of_nat w → (String.length (Py.str n) ≤ w)%nat.
Proof.
  intros Hw [H0 Hn]. rewrite str_digits, length_append, length_sou.
  unfold sign_of. destruct (Z.ltb_spec n 0); [lia|]. simpl.
  destruct n as [|p|p]; simpl; [lia| |lia].
  pose proof (to_uint_lower p) as Hlow.
  destruct (Nat.le_gt_cases (nb_digits (Pos.to_uint p)) w) as [|Hgt]; [done|].
  assert (10 ^ Z.of_nat w ≤ 10 ^ Z.of_nat (nb_digits (Pos.to_uint p) - 1))
    by (apply Z.pow_le_mono_r; lia).
  lia.
Qed.

End Decimal.

(** ** The names of the files are plain names *)

Lemma name_chars_app (a b : string) :
  DuckDB.name_chars (a +:+ b) = (DuckDB.name_chars a && DuckDB.name_chars b)%bool.
Proof.
  induction a as [|c a IH]; [done|].
  rewrite append_String. simpl. rewrite IH. by rewrite andb_assoc.
Qed.

Lemma name_chars_zeros k : DuckDB.name_chars (Py.zeros k) = true.
Proof. induction k as [|k IH]; [done|]. simpl. by rewrite IH. Qed.

Lemma name_chars_digits u :
  DuckDB.name_chars (NilEmpty.string_of_uint u) = true.
Proof. induction u as [|u IH|u IH|u IH|u IH|u IH|u IH|u IH|u IH|u IH|u IH];
         [done|simpl; by rewrite IH..]. Qed.

Lemma literal_name_file_path w O :
  DuckDB.literal_name ("pokedex_" +:+ Py.zfill w (Py.str O) +:+ ".parquet") = true.
Proof.
  rewrite zfill_str. unfold DuckDB.literal_name.
  rewrite append_String. rewrite <- append_String.
  rewrite !name_chars_app, name_chars_zeros, name_chars_digits.
  unfold sign_of. by destruct (O <? 0).
Qed.

(** [read_parquet] on a name [extract_data] made reads the file of that
    name. *)
Lemma read_file_path k O w :
  read_file w ("pokedex_" +:+ Py.zfill k (Py.str O) +:+ ".parquet")
  = files w !! ("pokedex_" +:+ Py.zfill k (Py.str O) +:+ ".parquet").
Proof.
  unfold read_file, DuckDB.read_parquet. by rewrite literal_name_file_path.
Qed.

Lemma read_lab_file_path O w : read_file w (lab_file_path O) = files w !! lab_file_path O.
Proof. apply read_file_path. Qed.

Lemma read_solutions_file_path O w :
  read_file w (solutions_file_path O) = files w !! solutions_file_path O.
Proof. apply read_file_path. Qed.

(** ** C8: the names of the files *)

Lemma append_cancel_r (s a b : string) : a +:+ s = b +:+ s → a = b.
Proof.
  revert b. induction a as [|c a IH]; intros [|c' b] H.
  - done.
  - apply (f_equal String.length) in H. rewrite !length_append in H.
    simpl in H. lia.
  - apply (f_equal String.length) in H. rewrite !length_append in H.
    simpl in H. lia.
  - rewrite !append_String in H. injection H as -> H. f_equal. by apply IH.
Qed.

Lemma file_path_inj w O1 O2 :
  "pokedex_" +:+ Py.zfill w (Py.str O1) +:+ ".parquet"
  = "pokedex_" +:+ Py.zfill w (Py.str O2) +:+ ".parquet" →
  O1 = O2.
Proof.
  intros H. rewrite !append_String, !append_nil_l in H.
  injection H as H. by apply append_cancel_r, zfill_str_inj in H.
Qed.

Lemma file_path_length w O :
  String.length ("pokedex_" +:+ Py.zfill w (Py.str O) +:+ ".parquet")
  = (16 + Nat.max w (String.length (Py.str O)))%nat.
Proof. rewrite !length_append, length_zfill. simpl. lia. Qed.

(** C8, as stated, fails: [zfill] pads and never cuts, so the file of
    offset 1000 of [lab-m1w1.py] and the file of offset 10000000000 of
    [solutions.py] have one character more than the file of offset 0. *)
Lemma fixed_width_names_fails :
  ¬ fixed_width_names Lab.extract_data ∧
  ¬ fixed_width_names Solutions.extract_data.
Proof.
  split; intros H.
  - destruct (H sample_api sample_api 30 30 (Some 0) (Some 1000)
                fresh_world fresh_world
                (Lab.extract_data sample_api 30 (Some 0) fresh_world).1
                (Lab.extract_data sample_api 30 (Some 1000) fresh_world).1
                "pokedex_000.parquet" "pokedex_1000.parquet" 30 1030)
      as [Hlen _]; [by vm_compute | by vm_compute | discriminate Hlen].
  - destruct (H sample_api sample_api 10 10 (Some 0) (Some 10000000000)
                fresh_world fresh_world
                (Solutions.extract_data sample_api 10 (Some 0) fresh_world).1
                (Solutions.extract_data sample_api 10 (Some 10000000000) fresh_world).1
                "pokedex_0000000000.parquet" "pokedex_10000000000.parquet"
                10 10000000010)
      as [Hlen _]; [by vm_compute | by vm_compute | discriminate Hlen].
Qed.

(** C8, amended: a call that returns has written the page to the file
    [pokedex_<offset>.parquet], where the resolved offset is padded with
    zeros to at least 3 digits in [lab-m1w1.py] and at least 10 in
    [solutions.py]; within one script two distinct offsets never share
    a file name, and the names have one length, 19 and 26 characters,
    for the offsets from 0 that have no more digits than the padding
    (below 1000, below 10000000000); a longer offset makes a longer
    name. *)
Theorem extract_data_file_name :
  (∀ api limit last_id w w' path next,
     Lab.extract_data api limit last_id w = (w', Ok (path, next)) →
     let offset := resolved_offset last_id w in
     path = "pokedex_" +:+ Py.zfill 3 (Py.str offset) +:+ ".parquet" ∧
     files w' !! path = api (requests w) (request_url limit offset) ∧
     is_Some (files w' !! path) ∧
     String.length path = (16 + Nat.max 3 (String.length (Py.str offset)))%nat ∧
     (0 ≤ offset < 1000 → String.length path = 19%nat)) ∧
  (∀ api limit last_id w w' path next,
     Solutions.extract_data api limit last_id w = (w', Ok (path, next)) →
     let offset := resolved_offset last_id w in
     path = "pokedex_" +:+ Py.zfill 10 (Py.str offset) +:+ ".parquet" ∧
     files w' !! path = api (requests w) (request_url limit offset) ∧
     is_Some (files w' !! path) ∧
     String.length path = (16 + Nat.max 10 (String.length (Py.str offset)))%nat ∧
     (0 ≤ offset < 10000000000 → String.length path = 26%nat)) ∧
  (∀ O1 O2, lab_file_path O1 = lab_file_path O2 → O1 = O2) ∧
  (∀ O1 O2, solutions_file_path O1 = solutions_file_path O2 → O1 = O2).
Proof.
  split_and!.
  - intros api limit last_id w w' path next
      (page & Hapi & _ & -> & _ & _ & Hfiles & _)%Lab_extract_data_inv offset.
    fold offset in Hapi. unfold lab_file_path in *. fold offset in Hfiles |- *.
    rewrite Hfiles, lookup_insert_eq, Hapi, file_path_length.
    split_and!; eauto. intros Hoff.
    pose proof (length_str_bound 3 offset ltac:(lia) ltac:(lia)). lia.
  - intros api limit last_id w w' path next
      (page & Hapi & _ & -> & _ & _ & Hfiles & _)%Solutions_extract_data_inv offset.
    fold offset in Hapi. unfold solutions_file_path in *. fold offset in Hfiles |- *.
    rewrite Hfiles, lookup_insert_eq, Hapi, file_path_length.
    split_and!; eauto. intros Hoff.
    pose proof (length_str_bound 10 offset ltac:(lia) ltac:(lia)). lia.
  - intros O1 O2. apply file_path_inj.
  - intros O1 O2. apply file_path_inj.
Qed.

Lemma extract_data_file_name_witness :
  String.length "pokedex_030.parquet" = 19%nat.
Proof.
  destruct extract_data_file_name as (Hlab & _).
  apply (Hlab sample_api 30 (Some 30) fresh_world
           (Lab.extract_data sample_api 30 (Some 30) fresh_world).1
           "pokedex_030.parquet" 60).
  - vm_compute. reflexivity.
  - unfold resolved_offset. simpl. lia.
Defined.

(** ** C6: the offsets of a run of the driver *)

Lemma pokedex_with_metadata d : pokedex (with_metadata d) = pokedex d.
Proof. unfold with_metadata. by destruct (metadata d). Qed.

Lemma print_inv e w w' (u : unit) :
  print e w = (w', Ok u) →
  db w' = db w ∧ files w' = files w ∧ requests w' = requests w ∧ glob w' = glob w.
Proof. unfold print. by intros [= <- _]. Qed.

Lemma Lab_transform_data_inv w w' u :
  Lab.transform_data w = (w', Ok u) →
  metadata (db w') = metadata (db w) ∧ pokedex (db w') = pokedex (db w) ∧
  files w' = files w ∧ requests w' = requests w ∧ glob w' = glob w.
Proof.
  unfold Lab.transform_data, bind, print, DuckDB.create_or_replace_pokemon_stats,
    DuckDB.select_pokemon_stats, DuckDB.statement.
  destruct w as [[m [rows|] s] fs gl rq co]; simpl; [|done]. by intros [= <- _].
Qed.

Lemma Solutions_transform_data_inv w w' u :
  Solutions.transform_data w = (w', Ok u) →
  metadata (db w') = metadata (db w) ∧ pokedex (db w') = pokedex (db w) ∧
  files w' = files w ∧ requests w' = requests w ∧ glob w' = glob w.
Proof.
  unfold Solutions.transform_data, bind, ret, print,
    DuckDB.create_or_replace_pokemon_stats,
    DuckDB.select_pokemon_stats, DuckDB.statement.
  destruct w as [[m [rows|] s] fs gl rq co]; simpl; [|done]. by intros [= <- _].
Qed.

Lemma Lab_main_inv api w w' :
  Lab.main api w = (w', Ok tt) →
  (∀ O1 O2, lab_file_path O1 = lab_file_path O2 → O1 = O2) →
  driver_effect api lab_file_path 30 w w'.
Proof.
  unfold Lab.main, driver_effect. intros H Hinj.
  step H as w0 u0 H0. apply print_inv in H0 as (Hdb0 & Hfs0 & Hrq0 & Hgl0).
  step H as w1 r1 H1. destruct r1 as [file_path_1 new_last_id_1].
  apply Lab_extract_data_inv in H1
    as (page1 & Hapi1 & _ & -> & -> & Hdb1 & Hfs1 & Hrq1 & Hgl1).
  step H as w2 r2 H2. destruct r2 as [file_path_2 new_last_id_2].
  apply Lab_extract_data_inv in H2
    as (page2 & Hapi2 & _ & -> & -> & Hdb2 & Hfs2 & Hrq2 & Hgl2).
  step H as w3 u3 H3. apply print_inv in H3 as (Hdb3 & Hfs3 & Hrq3 & Hgl3).
  step H as w4 u4 H4. destruct u4. apply Lab_load_data_inv in H4
    as (t1 & new1 & c1 & Ht1 & Hnew1 & _ & Hdb4 & Hfs4 & Hrq4 & Hgl4).
  step H as w5 u5 H5. destruct u5. apply Lab_load_data_inv in H5
    as (t2 & new2 & c2 & Ht2 & Hnew2 & _ & Hdb5 & Hfs5 & Hrq5 & Hgl5).
  step H as w6 u6 H6. apply print_inv in H6 as (Hdb6 & Hfs6 & Hrq6 & Hgl6).
  step H as w7 u7 H7. apply Lab_transform_data_inv in H7 as (_ & Hdb7 & Hfs7 & Hrq7 & Hgl7).
  apply print_inv in H as (Hdb8 & Hfs8 & Hrq8 & Hgl8).
  unfold resolved_offset in *. simpl in *.
  rewrite Hdb0 in *. rewrite Hrq0 in *. rewrite Hfs0 in *.
  replace (checkpoint_value (db w0)) with (checkpoint_value (db w)) in *
    by (by rewrite <- Hdb0).
  set (offset := checkpoint_value (db w)) in *.
  rewrite read_lab_file_path in Ht1, Ht2.
  rewrite Hrq1 in *. rewrite Hfs4, Hfs3, Hfs2, Hfs1 in Ht2.
  rewrite Hfs3, Hfs2, Hfs1 in Ht1.
  rewrite lookup_insert_eq in Ht2.
  rewrite lookup_insert_ne, lookup_insert_eq in Ht1
    by (intros Heq%Hinj; lia).
  simplify_eq.
  apply select_rows_Some in Hnew1 as (ids1 & Hids1 & -> & _).
  apply select_rows_Some in Hnew2 as (ids2 & Hids2 & -> & _).
  exists t1, t2, ids1, ids2. split_and!; try done.
  - by rewrite Hrq8, Hrq7, Hrq6, Hrq5, Hrq4, Hrq3, Hrq2, <- app_assoc.
  - by rewrite Hfs8, Hfs7, Hfs6, Hfs5, Hfs4, Hfs3, Hfs2, Hfs1.
  - rewrite Hdb8, Hdb7, Hdb6, Hdb5. simpl. rewrite Hdb4. simpl.
    rewrite Hdb3, Hdb2, Hdb1, !pokedex_with_metadata. by rewrite <- app_assoc.
Qed.

Lemma Solutions_main_inv api w w' :
  Solutions.main api w = (w', Ok tt) →
  (∀ O1 O2, solutions_file_path O1 = solutions_file_path O2 → O1 = O2) →
  driver_effect api solutions_file_path 10 w w'.
Proof.
  unfold Solutions.main, driver_effect. intros H Hinj.
  step H as w0 u0 H0. apply print_inv in H0 as (Hdb0 & Hfs0 & Hrq0 & Hgl0).
  step H as w1 r1 H1. destruct r1 as [file_path_1 new_last_id_1].
  apply Solutions_extract_data_inv in H1
    as (page1 & Hapi1 & _ & -> & -> & Hdb1 & Hfs1 & Hrq1 & Hgl1).
  step H as w1' u1 H1'. apply print_inv in H1' as (Hdb1' & Hfs1' & Hrq1' & Hgl1').
  step H as w2 r2 H2. destruct r2 as [file_path_2 new_last_id_2].
  apply Solutions_extract_data_inv in H2
    as (page2 & Hapi2 & _ & -> & -> & Hdb2 & Hfs2 & Hrq2 & Hgl2).
  step H as w3 u3 H3. apply print_inv in H3 as (Hdb3 & Hfs3 & Hrq3 & Hgl3).
  step H as w4 u4 H4. destruct u4. apply Solutions_load_data_inv in H4
    as (t1 & new1 & c1 & Ht1 & Hnew1 & _ & Hdb4 & Hfs4 & Hrq4 & Hgl4).
  step H as w5 u5 H5. destruct u5. apply Solutions_load_data_inv in H5
    as (t2 & new2 & c2 & Ht2 & Hnew2 & _ & Hdb5 & Hfs5 & Hrq5 & Hgl5).
  step H as w6 u6 H6. apply print_inv in H6 as (Hdb6 & Hfs6 & Hrq6 & Hgl6).
  step H as w7 u7 H7.
  apply Solutions_transform_data_inv in H7 as (_ & Hdb7 & Hfs7 & Hrq7 & Hgl7).
  apply print_inv in H as (Hdb8 & Hfs8 & Hrq8 & Hgl8).
  unfold resolved_offset in *. simpl in *.
  rewrite Hdb0 in *. rewrite Hrq0 in *. rewrite Hfs0 in *.
  replace (checkpoint_value (db w0)) with (checkpoint_value (db w)) in *
    by (by rewrite <- Hdb0).
  set (offset := checkpoint_value (db w)) in *.
  rewrite read_solutions_file_path in Ht1, Ht2.
  rewrite Hrq1', Hrq1 in *. rewrite Hfs1', Hfs1 in *. rewrite Hdb1' in *.
  rewrite Hfs4, Hfs3, Hfs2 in Ht2. rewrite Hfs3, Hfs2 in Ht1.
  rewrite lookup_insert_eq in Ht2.
  rewrite lookup_insert_ne, lookup_insert_eq in Ht1
    by (intros Heq%Hinj; lia).
  simplify_eq.
  apply select_rows_Some in Hnew1 as (ids1 & Hids1 & -> & _).
  apply select_rows_Some in Hnew2 as (ids2 & Hids2 & -> & _).
  exists t1, t2, ids1, ids2. split_and!; try done.
  - by rewrite Hrq8, Hrq7, Hrq6, Hrq5, Hrq4, Hrq3, Hrq2, <- app_assoc.
  - by rewrite Hfs8, Hfs7, Hfs6, Hfs5, Hfs4, Hfs3, Hfs2.
  - rewrite Hdb8, Hdb7, Hdb6, Hdb5. simpl. rewrite Hdb4. simpl.
    rewrite Hdb3, Hdb2, Hdb1, !pokedex_with_metadata. by rewrite <- app_assoc.
Qed.

(** C6, as stated, fails: the first page of a first run is requested at
    offset 0 and written to the file of offset 0, and its rows are
    recorded under the offset that [extract_data] returned, 30 in
    [lab-m1w1.py] and 10 in [solutions.py]. *)
Lemma driver_keeps_offset_fails :
  ¬ driver_keeps_offset Lab.main lab_file_path 30 ∧
  ¬ driver_keeps_offset Solutions.main solutions_file_path 10.
Proof.
  split; intros H.
  - specialize (H sample_api fresh_world (Lab.main sample_api fresh_world).1
                  ltac:(by vm_compute) 0 [bulbasaur; ivysaur] bulbasaur
                  (tagged 30 bulbasaur (Some 1))).
    assert (pokedex_last_id (tagged 30 bulbasaur (Some 1)) = Some 0) as Hbad; [|done].
    apply H; try (by vm_compute).
    + vm_compute. left.
    + left.
    + vm_compute. left.
  - specialize (H sample_api fresh_world (Solutions.main sample_api fresh_world).1
                  ltac:(by vm_compute) 0 [bulbasaur; ivysaur] bulbasaur
                  (tagged 10 bulbasaur (Some 1))).
    assert (pokedex_last_id (tagged 10 bulbasaur (Some 1)) = Some 0) as Hbad; [|done].
    apply H; try (by vm_compute).
    + vm_compute. left.
    + left.
    + vm_compute. left.
Qed.

(** * Calls in sequence *)

(** ** Composing calls *)

Lemma bind_ok {A B} (m : M A) (k : A → M B) w w1 a :
  m w = (w1, Ok a) → bind m k w = k a w1.
Proof. unfold bind. by intros ->. Qed.

Lemma bind_err {A B} (m : M A) (k : A → M B) w w1 e :
  m w = (w1, Err e) → bind m k w = (w1, Err e).
Proof. unfold bind. by intros ->. Qed.

Lemma bind_inv_err {A B} (m : M A) (k : A → M B) w w' e :
  bind m k w = (w', Err e) →
  m w = (w', Err e) ∨ ∃ w1 a, m w = (w1, Ok a) ∧ k a w1 = (w', Err e).
Proof.
  unfold bind. destruct (m w) as [w1 [a|e']]; [eauto|]. intros [= -> ->]. by left.
Qed.

Section Keeps.
Context (R : world → world → Prop) `{!PreOrder R}.

Lemma keeps_ret {A} (a : A) : keeps R (ret a).
Proof. intros w. reflexivity. Qed.

Lemma keeps_raise {A} e : keeps R (@raise A e).
Proof. intros w. reflexivity. Qed.

Lemma keeps_bind {A B} (m : M A) (k : A → M B) :
  keeps R m → (∀ a, keeps R (k a)) → keeps R (bind m k).
Proof.
  intros Hm Hk w. specialize (Hm w). unfold bind.
  destruct (m w) as [w1 [a|e]]; simpl in *; [|done].
  etrans; [exact Hm | apply Hk].
Qed.

Lemma keeps_try_except {A} (m : M A) (h : error → M A) :
  keeps R m → (∀ e, keeps R (h e)) → keeps R (try_except m h).
Proof.
  intros Hm Hh w. specialize (Hm w). unfold try_except.
  destruct (m w) as [w1 [a|e]]; simpl in *; [done|].
  etrans; [exact Hm | apply Hh].
Qed.

End Keeps.

Lemma never_raises_bind {A B} e (m : M A) (k : A → M B) :
  never_raises e m → (∀ a, never_raises e (k a)) → never_raises e (bind m k).
Proof.
  intros Hm Hk w. specialize (Hm w). unfold bind.
  destruct (m w) as [w1 [a|e']]; simpl in *; [apply Hk | congruence].
Qed.

(** ** Calls that raise *)

(** X1: when the request fails, [extract_data] prints the failure and
    raises the exception of the request again: the request is on
    record, no file is written, and the database only has gained the
    table of the checkpoint if it had none. *)
Theorem extract_data_fetch_fails api limit last_id w :
  api (requests w) (request_url limit (resolved_offset last_id w)) = None →
  Lab.extract_data api limit last_id w
  = (fetch_failed (request_url limit (resolved_offset last_id w)) w,
     Err RequestException) ∧
  Solutions.extract_data api limit last_id w
  = (fetch_failed (request_url limit (resolved_offset last_id w)) w,
     Err RequestException).
Proof.
  unfold Lab.extract_data, Solutions.extract_data, fetch_failed.
  destruct w as [[m p s] fs gl rq co], last_id as [O|]; run_extract;
    destruct m as [col|]; simpl; intros ->; simpl; rewrite <- ?app_assoc; done.
Qed.

Lemma extract_data_fetch_fails_witness :
  (Lab.extract_data down_api 30 None fresh_world).2 = Err RequestException.
Proof.
  destruct (extract_data_fetch_fails down_api 30 None fresh_world) as [Hlab _].
  - reflexivity.
  - by rewrite Hlab.
Defined.

Lemma load_data_no_file f B w :
  read_file w f = None →
  ((Lab.load_data f B w).2 = Err IOException ∧
   (Solutions.load_data f B w).2 = Err IOException) ∧
  (Lab.load_data f B w).1 = (Solutions.load_data f B w).1 ∧
  db (Lab.load_data f B w).1
  = {| metadata := metadata (db w);
       pokedex := Some (default [] (pokedex (db w)));
       pokemon_stats := pokemon_stats (db w) |} ∧
  files (Lab.load_data f B w).1 = files w ∧
  console (Lab.load_data f B w).1 = console w.
Proof.
  unfold Lab.load_data, Solutions.load_data, read_file.
  destruct w as [[m p s] fs gl rq co]. run_load. intros Hf.
  destruct p as [rows|]; simpl; rewrite Hf; done.
Qed.

(** X2: [load_data] on a path for which [read_parquet] finds no file
    raises its I/O error before anything is printed; no row is added
    and the checkpoint is not written, but [pokedex] exists
    afterwards. *)
Theorem load_data_missing_file f B w :
  read_file w f = None →
  ((Lab.load_data f B w).2 = Err IOException ∧
   (Solutions.load_data f B w).2 = Err IOException) ∧
  (Lab.load_data f B w).1 = (Solutions.load_data f B w).1 ∧
  db (Lab.load_data f B w).1
  = {| metadata := metadata (db w);
       pokedex := Some (default [] (pokedex (db w)));
       pokemon_stats := pokemon_stats (db w) |} ∧
  files (Lab.load_data f B w).1 = files w ∧
  console (Lab.load_data f B w).1 = console w.
Proof. apply load_data_no_file. Qed.

Lemma load_data_missing_file_witness :
  (Lab.load_data "pokedex_060.parquet" 90 page_only_world).2 = Err IOException.
Proof.
  apply (load_data_missing_file "pokedex_060.parquet" 90 page_only_world).
  vm_compute. reflexivity.
Defined.

(** X3: [load_data] does not create the table of the checkpoint.  In a
    database without it, as before the first [extract_data], the rows
    of the file are inserted and then the UPDATE raises: the call fails
    with the rows in [pokedex] and without a checkpoint. *)
Theorem load_data_without_metadata f B w tbl ids :
  metadata (db w) = None →
  read_file w f = Some tbl →
  mapM embedded_id tbl = Some ids →
  in_int32 B →
  ((Lab.load_data f B w).2 = Err CatalogException ∧
   (Solutions.load_data f B w).2 = Err CatalogException) ∧
  (db (Lab.load_data f B w).1
   = {| metadata := None;
        pokedex := Some (default [] (pokedex (db w)) ++ zip_with (tagged B) tbl ids);
        pokemon_stats := pokemon_stats (db w) |} ∧
   db (Solutions.load_data f B w).1 = db (Lab.load_data f B w).1).
Proof.
  intros Hm Hf Hids HB.
  pose proof (select_rows_in_range B tbl ids HB Hids) as Hnew.
  unfold Lab.load_data, Solutions.load_data, read_file in *.
  destruct w as [[m p s] fs gl rq co]. run_load. subst m.
  destruct p as [rows|]; simpl; rewrite Hf, Hnew; done.
Qed.

Lemma load_data_without_metadata_witness :
  (Lab.load_data "pokedex_000.parquet" 30 page_only_world).2 = Err CatalogException.
Proof.
  apply (load_data_without_metadata "pokedex_000.parquet" 30 page_only_world
           [bulbasaur; ivysaur] [Some 1; Some 2]).
  - reflexivity.
  - vm_compute. reflexivity.
  - vm_compute. reflexivity.
  - vm_compute. split; discriminate.
Defined.

Lemma transform_data_no_pokedex w :
  pokedex (db w) = None →
  Lab.transform_data w = (w, Err CatalogException) ∧
  Solutions.transform_data w = (w, Err CatalogException).
Proof.
  unfold Lab.transform_data, Solutions.transform_data, bind,
    DuckDB.create_or_replace_pokemon_stats, DuckDB.statement.
  destruct w as [[m p s] fs gl rq co]. simpl. by intros ->.
Qed.

(** X4: [transform_data] in a database without [pokedex] raises the
    catalog error of the SELECT and leaves the world as it was, an
    earlier summary included; nothing is printed. *)
Theorem transform_data_without_pokedex w :
  pokedex (db w) = None →
  Lab.transform_data w = (w, Err CatalogException) ∧
  Solutions.transform_data w = (w, Err CatalogException).
Proof. apply transform_data_no_pokedex. Qed.

Lemma transform_data_without_pokedex_witness :
  Lab.transform_data fresh_world = (fresh_world, Err CatalogException).
Proof. apply (transform_data_without_pokedex fresh_world). reflexivity. Defined.

(** ** What every call leaves *)

Lemma cast_integer_range n v : DuckDB.cast_integer n = Some v → in_int32 n.
Proof.
  unfold DuckDB.cast_integer, in_int32.
  destruct (DuckDB.INT32_MIN <=? n) eqn:H1, (n <=? DuckDB.INT32_MAX) eqn:H2;
    simpl; try done.
  apply Z.leb_le in H1, H2. done.
Qed.

Lemma update_rows_range B col col' :
  mapM (λ v : option Z, match v with
                        | Some _ => Some <$> DuckDB.cast_integer B
                        | None => Some None
                        end) col = Some col' →
  (∃ v, Some v ∈ col) → in_int32 B.
Proof.
  intros H%mapM_Some_1 [v Hv].
  induction H as [|x x' col col' Hx _ IH]; [by apply elem_of_nil in Hv|].
  apply elem_of_cons in Hv as [<-|Hv]; [|by apply IH].
  simpl in Hx. destruct (DuckDB.cast_integer B) as [b|] eqn:Hb; [|done].
  by eapply cast_integer_range.
Qed.

Ltac grows := repeat apply prefix_app_r; reflexivity.

Ltac load_outcome_cases f B :=
  match goal with
  | |- context [ {| db := {| metadata := ?m; pokedex := ?p |}; files := ?fs;
                    glob := ?gl |} ] =>
      destruct p as [rows|]; simpl;
      (destruct (DuckDB.read_parquet gl fs f) as [tbl|]; simpl;
       [|rewrite ?app_nil_r; split_and!; try grows; auto; done]);
      (destruct (mapM (DuckDB.select_row B) tbl) as [new|]; simpl;
       [|rewrite ?app_nil_r; split_and!; try grows; auto; done]);
      (destruct m as [col|]; simpl;
       [|split_and!; try grows; auto; done]);
      (destruct (mapM _ col) as [col'|] eqn:Hcol; simpl;
       [|split_and!; try grows; auto; done]);
      pose proof (update_rows_range _ _ _ Hcol) as Hrange;
      apply update_rows_Some in Hcol as ->;
      destruct col as [|v col]; simpl;
      first
        [ solve [ destruct (DuckDB.cast_integer B) as [b|] eqn:Hb; simpl;
                  [ pose proof (cast_integer_range _ _ Hb);
                    apply cast_integer_Some in Hb as ->;
                    split_and!; try grows; eauto 10
                  | split_and!; try grows; auto ] ]
        | solve [ split_and!; try grows; try done;
                  right; eexists; split_and!; try done;
                  intros [?|?]; [done | auto] ] ]
  end.

Lemma Lab_load_data_outcome f B w : load_outcome f B w (Lab.load_data f B w).1.
Proof.
  unfold Lab.load_data, load_outcome, appended, read_file.
  destruct w as [[m p s] fs gl rq co]. run_load. load_outcome_cases f B.
Qed.

Lemma Solutions_load_data_outcome f B w :
  load_outcome f B w (Solutions.load_data f B w).1.
Proof.
  unfold Solutions.load_data, load_outcome, appended, read_file.
  destruct w as [[m p s] fs gl rq co]. run_load. load_outcome_cases f B.
Qed.

Lemma Lab_transform_data_outcome w : transform_outcome w (Lab.transform_data w).1.
Proof.
  unfold Lab.transform_data, transform_outcome, bind, print,
    DuckDB.create_or_replace_pokemon_stats, DuckDB.select_pokemon_stats,
    DuckDB.statement, summary_of.
  destruct w as [[m [rows|] s] fs gl rq co]; simpl; split_and!;
    try grows; auto.
Qed.

Lemma Solutions_transform_data_outcome w :
  transform_outcome w (Solutions.transform_data w).1.
Proof.
  unfold Solutions.transform_data, transform_outcome, bind, ret, print,
    DuckDB.create_or_replace_pokemon_stats, DuckDB.select_pokemon_stats,
    DuckDB.statement, summary_of.
  destruct w as [[m [rows|] s] fs gl rq co]; simpl; split_and!;
    try grows; auto.
Qed.

Lemma Lab_extract_data_outcome api limit last_id w :
  extract_outcome w (Lab.extract_data api limit last_id w).1.
Proof.
  unfold Lab.extract_data, extract_outcome.
  destruct w as [[m p s] fs gl rq co], last_id as [O|]; run_extract;
    extract_cases api; split_and!; try grows; eauto.
Qed.

Lemma Solutions_extract_data_outcome api limit last_id w :
  extract_outcome w (Solutions.extract_data api limit last_id w).1.
Proof.
  unfold Solutions.extract_data, extract_outcome.
  destruct w as [[m p s] fs gl rq co], last_id as [O|]; run_extract;
    extract_cases api; split_and!; try grows; eauto.
Qed.

Ltac compose R :=
  first
    [ apply (keeps_bind R); [by auto | intros ?; compose R]
    | match goal with a : (_ * _)%type |- _ => destruct a; compose R end
    | by auto ].

(** The drivers keep what their parts keep. *)
Section Drivers.
Context (R : world → world → Prop) `{!PreOrder R}.
Hypothesis keeps_print : ∀ e, keeps R (print e).

Lemma Lab_main_keeps api :
  (∀ limit last_id, keeps R (Lab.extract_data api limit last_id)) →
  (∀ f B, keeps R (Lab.load_data f B)) →
  keeps R Lab.transform_data →
  keeps R (Lab.main api).
Proof.
  intros Hextract Hload Htransform. unfold Lab.main.
  compose R.
Qed.

Lemma Solutions_main_keeps api :
  (∀ limit last_id, keeps R (Solutions.extract_data api limit last_id)) →
  (∀ f B, keeps R (Solutions.load_data f B)) →
  keeps R Solutions.transform_data →
  keeps R (Solutions.main api).
Proof.
  intros Hextract Hload Htransform. unfold Solutions.main.
  compose R.
Qed.

End Drivers.

(** ** Nothing is taken away *)

Global Instance evolves_preorder : PreOrder evolves.
Proof.
  split.
  - intros w. unfold evolves. split_and!; done.
  - intros w1 w2 w3 (H1 & H2 & H3 & H4 & H5 & H6 & H7)
      (G1 & G2 & G3 & G4 & G5 & G6 & G7).
    unfold evolves. split_and!; try (etrans; eassumption); auto.
Qed.

Lemma print_evolves e : keeps evolves (print e).
Proof. intros w. unfold evolves, print. simpl. split_and!; try done. grows. Qed.

Lemma is_Some_with_metadata d : is_Some (metadata (with_metadata d)).
Proof. unfold with_metadata. destruct (metadata d) eqn:H; [by rewrite H | done]. Qed.

Lemma extract_outcome_evolves w w' : extract_outcome w w' → evolves w w'.
Proof.
  intros (Hdb & Hfs & Hrq & Hco). unfold evolves. rewrite Hdb.
  rewrite pokedex_with_metadata. split_and!; try done.
  - intros _. apply is_Some_with_metadata.
  - unfold with_metadata. by destruct (metadata (db w)).
  - destruct Hfs as [->|(path & page & ->)]; [done|].
    rewrite dom_insert. set_solver.
Qed.

Lemma load_outcome_evolves f B w w' : load_outcome f B w w' → evolves w w'.
Proof.
  intros (Hs & Hp & Hm & Hfs & Hrq & Hco). unfold evolves.
  rewrite Hs, Hp, Hfs, Hrq. simpl. split_and!; try done.
  - by apply prefix_app_r.
  - destruct Hm as [->|(col & -> & -> & _)]; done.
Qed.

Lemma transform_outcome_evolves w w' : transform_outcome w w' → evolves w w'.
Proof.
  intros (Hm & Hp & Hs & Hfs & Hrq & Hco). unfold evolves.
  rewrite Hm, Hp, Hs, Hfs, Hrq. split_and!; try done.
  by destruct (pokedex (db w)).
Qed.

Lemma after_evolves c w : evolves w (after c w).
Proof.
  assert (∀ api limit last_id, keeps evolves (Lab.extract_data api limit last_id))
    by (intros; intros w0; apply extract_outcome_evolves, Lab_extract_data_outcome).
  assert (∀ api limit last_id,
             keeps evolves (Solutions.extract_data api limit last_id))
    by (intros; intros w0;
        apply extract_outcome_evolves, Solutions_extract_data_outcome).
  assert (∀ f B, keeps evolves (Lab.load_data f B))
    by (intros; intros w0; eapply load_outcome_evolves, Lab_load_data_outcome).
  assert (∀ f B, keeps evolves (Solutions.load_data f B))
    by (intros; intros w0;
        eapply load_outcome_evolves, Solutions_load_data_outcome).
  assert (keeps evolves Lab.transform_data)
    by (intros w0; apply transform_outcome_evolves, Lab_transform_data_outcome).
  assert (keeps evolves Solutions.transform_data)
    by (intros w0;
        apply transform_outcome_evolves, Solutions_transform_data_outcome).
  destruct c as [[] api limit last_id|[] f B|[]|[] api]; unfold after.
  - apply (H api).
  - apply (H0 api).
  - apply (H1 f).
  - apply (H2 f).
  - apply H3.
  - apply H4.
  - apply (Lab_main_keeps evolves print_evolves); auto.
  - apply (Solutions_main_keeps evolves print_evolves); auto.
Qed.

(** X5: no call of a function of either script, the drivers included,
    takes anything away, whether it returns or raises: through any
    sequence of calls the rows of [pokedex] stay as they are and where
    they are, with new rows behind them, no table is dropped, no file
    is removed, and the requests made and the lines printed stay on
    record. *)
Theorem nothing_is_taken_away (calls : list call) (w : world) :
  evolves w (foldl (λ w c, after c w) w calls).
Proof.
  revert w. induction calls as [|c calls IH]; intros w; simpl; [reflexivity|].
  etrans; [apply (after_evolves c) | apply IH].
Qed.

(** ** The database the scripts keep *)

Global Instance stays_well_formed_preorder : PreOrder stays_well_formed.
Proof. split; unfold stays_well_formed; [by intros w | intros w1 w2 w3; auto]. Qed.

Lemma print_well_formed e : keeps stays_well_formed (print e).
Proof. intros w Hw. exact Hw. Qed.

Lemma well_formed_with_metadata d : well_formed d → well_formed (with_metadata d).
Proof.
  unfold with_metadata. destruct (metadata d) as [col|] eqn:Hm; [done|].
  intros (_ & Hp & Hs). split_and!; simpl; [|done..].
  intros col [= <-]. split; [simpl; lia|]. by intros v ?%elem_of_nil.
Qed.

Lemma appended_loaded f B w : Forall loaded_row (appended f B w).
Proof.
  apply Forall_forall.
  intros row (tbl & r & id & _ & _ & HB%cast_integer_range & Hid & ->)%appended_from_file.
  by exists B, r, id.
Qed.

Lemma load_outcome_well_formed f B w w' :
  load_outcome f B w w' → stays_well_formed w w'.
Proof.
  intros (Hs & Hp & Hm & _) (Wm & Wp & Ws). split_and!.
  - destruct Hm as [->|(col & Hcol & -> & HB)]; [done|].
    intros ? [= <-]. destruct (Wm col Hcol) as [Hlen Hval].
    destruct col as [|v [|v' col]]; simpl in *; [| |lia].
    + split; [lia|]. intros v ->%list_elem_of_singleton. eauto.
    + destruct (Hval v) as (x & -> & _); [left|]. split; [lia|].
      intros v ->%list_elem_of_singleton. exists B. split; [done|].
      apply HB. right. exists x. left.
  - rewrite Hp. intros ? [= <-]. apply Forall_app. split; [|apply appended_loaded].
    destruct (pokedex (db w)) as [rows|]; simpl; [by apply Wp | done].
  - rewrite Hs, Hp. intros stats Hstats. destruct (Ws stats Hstats) as (s & -> & Hc).
    exists s. split; [done|]. simpl. unfold DuckDB.COUNT in *.
    rewrite length_app. lia.
Qed.

Lemma transform_outcome_well_formed w w' :
  transform_outcome w w' → stays_well_formed w w'.
Proof.
  intros (Hm & Hp & Hs & _) (Wm & Wp & Ws). split_and!.
  - by rewrite Hm.
  - by rewrite Hp.
  - rewrite Hs, Hp. destruct (pokedex (db w)) as [rows|]; [|done].
    intros ? [= <-]. exists (summary_of rows). split; [done|]. simpl.
    unfold DuckDB.COUNT. lia.
Qed.

Lemma after_well_formed c w : well_formed (db w) → well_formed (db (after c w)).
Proof.
  assert (∀ w w', extract_outcome w w' → stays_well_formed w w') as Hex.
  { intros w0 w' (Hdb & _) Hw. rewrite Hdb. by apply well_formed_with_metadata. }
  assert (∀ api limit last_id,
             keeps stays_well_formed (Lab.extract_data api limit last_id))
    by (intros; intros w0; apply Hex, Lab_extract_data_outcome).
  assert (∀ api limit last_id,
             keeps stays_well_formed (Solutions.extract_data api limit last_id))
    by (intros; intros w0; apply Hex, Solutions_extract_data_outcome).
  assert (∀ f B, keeps stays_well_formed (Lab.load_data f B))
    by (intros; intros w0; eapply load_outcome_well_formed, Lab_load_data_outcome).
  assert (∀ f B, keeps stays_well_formed (Solutions.load_data f B))
    by (intros; intros w0;
        eapply load_outcome_well_formed, Solutions_load_data_outcome).
  assert (keeps stays_well_formed Lab.transform_data)
    by (intros w0; apply transform_outcome_well_formed, Lab_transform_data_outcome).
  assert (keeps stays_well_formed Solutions.transform_data)
    by (intros w0;
        apply transform_outcome_well_formed, Solutions_transform_data_outcome).
  destruct c as [[] api limit last_id|[] f B|[]|[] api]; unfold after.
  - apply (H api).
  - apply (H0 api).
  - apply (H1 f).
  - apply (H2 f).
  - apply H3.
  - apply H4.
  - apply (Lab_main_keeps stays_well_formed print_well_formed); auto.
  - apply (Solutions_main_keeps stays_well_formed print_well_formed); auto.
Qed.

Lemma reachable_well_formed w : reachable w → well_formed (db w).
Proof.
  induction 1 as [w Hdb|c w _ IH]; [|by apply after_well_formed].
  rewrite Hdb. by split_and!.
Qed.

(** X6: from a database without tables, whatever the files on disk, the
    service and the arguments, and whether calls return or raise, the
    scripts keep the database well formed: the checkpoint is at most
    one row, never NULL and within [INTEGER]; every row of [pokedex]
    has an offset that is not NULL and within [INTEGER], and the id of
    its own locator, the number of the leftmost match, or NULL next to
    a NULL locator; the summary is one row whose count is at most the
    number of rows of [pokedex]. *)
Theorem scripts_keep_database_well_formed w :
  reachable w →
  well_formed (db w) ∧
  ∀ rows row,
    pokedex (db w) = Some rows → row ∈ rows →
    (∃ B, pokedex_last_id row = Some B ∧ in_int32 B) ∧
    id_of_locator (pokedex_url row) (pokemon_id row).
Proof.
  intros Hw%reachable_well_formed. split; [done|].
  intros rows row Hrows Hrow. destruct Hw as (_ & Wp & _).
  specialize (Wp rows Hrows). rewrite Forall_forall in Wp.
  destruct (Wp row Hrow) as (B & r & id & -> & HB & Hid). split.
  - by exists B.
  - by apply embedded_id_locator.
Qed.

Lemma scripts_keep_database_well_formed_witness :
  well_formed (db (after (call_main lab sample_api) fresh_world)).
Proof.
  apply scripts_keep_database_well_formed.
  apply reachable_call, reachable_start. reflexivity.
Defined.

(** X7: in a world the scripts have reached from a database without
    tables, a call of [load_data] that returns is always followed by a
    read of the checkpoint that yields its offset, whatever the
    checkpoint was, greater or smaller. *)
Theorem reachable_checkpoint_after_load f B w w' :
  reachable w →
  loads f B w w' →
  snd (read_checkpoint w') = Ok B ∧ checkpoint_rows (db w') = [Some B].
Proof.
  intros (Wm & _)%reachable_well_formed
    (tbl & new & col & _ & _ & Hm & Hdb & _)%loads_effect.
  rewrite read_checkpoint_value. unfold checkpoint_value, checkpoint_rows.
  rewrite Hdb. simpl. destruct (Wm col Hm) as [Hlen Hval].
  destruct col as [|v [|v' col]]; simpl in *; [done| |lia].
  destruct (Hval v) as (x & -> & _); [left|]. done.
Qed.

Lemma reachable_checkpoint_after_load_witness :
  snd (read_checkpoint
         (Lab.load_data "pokedex_000.parquet" 30
            (after (call_extract_data lab sample_api 30 None) fresh_world)).1)
  = Ok 30.
Proof.
  apply (reachable_checkpoint_after_load "pokedex_000.parquet" 30
           (after (call_extract_data lab sample_api 30 None) fresh_world)).
  - apply reachable_call, reachable_start. reflexivity.
  - left. vm_compute. reflexivity.
Defined.

(** ** C1: the checkpoint after a load *)

Lemma written_not_null (B : Z) (col : list (option Z)) :
  Forall is_Some col →
  (λ v : option Z, (λ _, B) <$> v) <$> col = (λ _, Some B) <$> col.
Proof.
  intros H. apply Forall_fmap_ext. eapply Forall_impl; [exact H|].
  by intros v [x ->].
Qed.

(** C1: [load_data f B] returns when the file is there and converts,
    [metadata] exists and [B] fits an [INTEGER].  No world the scripts
    reach has a NULL row in [metadata], and without such a row the read
    of the checkpoint that follows a call that returned yields [B],
    whatever the table held before: a table without a row has received
    the row [B], and in a table with rows every row holds [B]. *)
Theorem checkpoint_after_load f B w :
  (reachable w → checkpoint_not_null (db w)) ∧
  (loadable w f B →
   (∃ w', Lab.load_data f B w = (w', Ok tt)) ∧
   (∃ w', Solutions.load_data f B w = (w', Ok tt))) ∧
  (checkpoint_not_null (db w) →
   ∀ w', loads f B w w' →
     snd (read_checkpoint w') = Ok B ∧
     (checkpoint_rows (db w) = [] → checkpoint_rows (db w') = [Some B]) ∧
     (checkpoint_rows (db w) ≠ [] →
      checkpoint_rows (db w') = (λ _ : option Z, Some B) <$> checkpoint_rows (db w))).
Proof.
  split_and!.
  - intros (Wm & _)%reachable_well_formed. unfold checkpoint_not_null, checkpoint_rows.
    destruct (metadata (db w)) as [col|] eqn:Hm; simpl; [|done].
    apply Forall_forall. intros v Hv.
    destruct (Wm col eq_refl) as [_ Hval]. destruct (Hval v Hv) as (x & -> & _). done.
  - intros Hload. split; [by apply Lab_load_data_ok | by apply Solutions_load_data_ok].
  - intros Hnull w' (tbl & new & col & _ & _ & Hm & Hdb & _)%loads_effect.
    rewrite read_checkpoint_value.
    unfold checkpoint_not_null, checkpoint_value, checkpoint_rows in *.
    rewrite Hdb. rewrite Hm in *. simpl in *. split_and!.
    + f_equal. apply checkpoint_value_written.
      destruct col as [|v col]; [by left|right].
      apply Forall_cons in Hnull as [[x ->] _]. exists x. left.
    + by intros ->.
    + intros Hne. destruct col as [|v col]; [done|].
      unfold metadata_written. by apply written_not_null.
Qed.

Lemma checkpoint_after_load_witness :
  snd (read_checkpoint
         (fst (Lab.load_data "pokedex_030.parquet" 60 checkpoint_30_world))) = Ok 60.
Proof.
  apply (proj2 (proj2 (checkpoint_after_load "pokedex_030.parquet" 60
                         checkpoint_30_world))).
  - unfold checkpoint_not_null. vm_compute. repeat constructor. by exists 30.
  - left. vm_compute. reflexivity.
Defined.

(** ** Calling twice *)

(** X8: [load_data] does not look at what [pokedex] holds: loading one
    file twice appends its rows twice, the second time under the second
    offset, so that loading under the same offset leaves every row
    doubled. *)
Theorem load_data_twice f B1 B2 w w1 w2 tbl :
  read_file w f = Some tbl →
  loads f B1 w w1 →
  loads f B2 w1 w2 →
  ∃ ids,
    mapM embedded_id tbl = Some ids ∧
    pokedex (db w2)
    = Some (default [] (pokedex (db w))
            ++ zip_with (tagged B1) tbl ids ++ zip_with (tagged B2) tbl ids).
Proof.
  intros Hf
    (t1 & new1 & c1 & Ht1 & Hnew1 & _ & Hdb1 & Hfs1 & _ & Hgl1)%loads_effect
    (t2 & new2 & c2 & Ht2 & Hnew2 & Hm2 & Hdb2 & _)%loads_effect.
  unfold read_file in *. rewrite Hfs1, Hgl1 in Ht2. simplify_eq.
  apply select_rows_Some in Hnew1 as (ids & Hids & -> & _).
  apply select_rows_Some in Hnew2 as (ids' & Hids' & -> & _).
  simplify_eq. exists ids. split; [done|].
  rewrite Hdb2, Hdb1. simpl. by rewrite <- app_assoc.
Qed.

Lemma load_data_twice_witness :
  ∃ ids,
    mapM embedded_id [bulbasaur; ivysaur] = Some ids ∧
    pokedex (db (Lab.load_data "pokedex_000.parquet" 30
                   (Lab.load_data "pokedex_000.parquet" 30 two_pages_world).1).1)
    = Some (default [] (pokedex (db two_pages_world))
            ++ zip_with (tagged 30) [bulbasaur; ivysaur] ids
            ++ zip_with (tagged 30) [bulbasaur; ivysaur] ids).
Proof.
  apply (load_data_twice "pokedex_000.parquet" 30 30 two_pages_world
           (Lab.load_data "pokedex_000.parquet" 30 two_pages_world).1).
  - vm_compute. reflexivity.
  - left. vm_compute. reflexivity.
  - left. vm_compute. reflexivity.
Defined.

Lemma database_eq (d d' : database) :
  metadata d = metadata d' → pokedex d = pokedex d' →
  pokemon_stats d = pokemon_stats d' → d = d'.
Proof. destruct d, d'. simpl. by intros -> -> ->. Qed.

Lemma transform_outcome_again w w1 w2 :
  transform_outcome w w1 → transform_outcome w1 w2 → db w2 = db w1.
Proof.
  intros (Hm1 & Hp1 & Hs1 & _) (Hm2 & Hp2 & Hs2 & _).
  apply database_eq; [done..|]. rewrite Hs2, Hp1, Hs1.
  by destruct (pokedex (db w)).
Qed.

(** X9: [transform_data] a second time changes nothing in the database,
    whichever of the two scripts runs first and second, and whether the
    calls return or raise. *)
Theorem transform_data_again w :
  db (Lab.transform_data (Lab.transform_data w).1).1
  = db (Lab.transform_data w).1 ∧
  db (Solutions.transform_data (Solutions.transform_data w).1).1
  = db (Solutions.transform_data w).1 ∧
  db (Solutions.transform_data (Lab.transform_data w).1).1
  = db (Lab.transform_data w).1 ∧
  db (Lab.transform_data (Solutions.transform_data w).1).1
  = db (Solutions.transform_data w).1.
Proof.
  split_and!; eapply transform_outcome_again;
    eauto using Lab_transform_data_outcome, Solutions_transform_data_outcome.
Qed.

Lemma checkpoint_value_with_metadata d :
  checkpoint_value (with_metadata d) = checkpoint_value d.
Proof.
  unfold checkpoint_value, checkpoint_rows, with_metadata.
  by destruct (metadata d) eqn:H; rewrite ?H.
Qed.

Lemma with_metadata_idemp d : with_metadata (with_metadata d) = with_metadata d.
Proof. unfold with_metadata. by destruct (metadata d) eqn:H; simpl; rewrite ?H. Qed.

Lemma extract_effect_again api file_path_of limit last_id w w1 w2 path next path' next' :
  extract_effect api file_path_of limit last_id w w1 path next →
  api (requests w1) (request_url limit (resolved_offset last_id w))
  = api (requests w) (request_url limit (resolved_offset last_id w)) →
  extract_effect api file_path_of limit last_id w1 w2 path' next' →
  path' = path ∧ next' = next ∧ files w2 = files w1 ∧ db w2 = db w1.
Proof.
  intros (page & Hapi & _ & -> & -> & Hdb & Hfs & _) Hstable
    (page' & Hapi' & _ & -> & -> & Hdb' & Hfs' & _).
  assert (resolved_offset last_id w1 = resolved_offset last_id w) as Hoff.
  { unfold resolved_offset. by rewrite Hdb, checkpoint_value_with_metadata. }
  rewrite Hoff in *. rewrite Hstable, Hapi in Hapi'. simplify_eq.
  split_and!; try done.
  - by rewrite Hfs', Hfs, insert_insert_eq.
  - by rewrite Hdb', Hdb, with_metadata_idemp.
Qed.

(** X10: [extract_data] again with the same arguments, when the service
    answers the request as it did, returns the same file and the same
    next offset and leaves files and database as the first call left
    them: the file is written again with the same rows, and the
    checkpoint does not move between the calls. *)
Theorem extract_data_again api limit last_id w w1 path next :
  api (requests w1) (request_url limit (resolved_offset last_id w))
  = api (requests w) (request_url limit (resolved_offset last_id w)) →
  (Lab.extract_data api limit last_id w = (w1, Ok (path, next)) →
   ∃ w2, Lab.extract_data api limit last_id w1 = (w2, Ok (path, next)) ∧
         files w2 = files w1 ∧ db w2 = db w1) ∧
  (Solutions.extract_data api limit last_id w = (w1, Ok (path, next)) →
   ∃ w2, Solutions.extract_data api limit last_id w1 = (w2, Ok (path, next)) ∧
         files w2 = files w1 ∧ db w2 = db w1).
Proof.
  intros Hstable. split; intros Hrun.
  - pose proof (Lab_extract_data_inv _ _ _ _ _ _ _ Hrun) as Heff.
    pose proof Heff as (page & Hapi & Hne & _ & _ & Hdb & _).
    assert (resolved_offset last_id w1 = resolved_offset last_id w) as Hoff.
    { unfold resolved_offset. by rewrite Hdb, checkpoint_value_with_metadata. }
    destruct (Lab_extract_data_ok api limit last_id w1 page) as [w2 Hrun2];
      [by rewrite Hoff, Hstable | done |].
    pose proof (Lab_extract_data_inv _ _ _ _ _ _ _ Hrun2) as Heff2.
    destruct (extract_effect_again _ _ _ _ _ _ _ _ _ _ _ Heff Hstable Heff2)
      as (Hp & Hn & Hfs & Hdb2).
    exists w2. rewrite Hrun2, Hp, Hn. done.
  - pose proof (Solutions_extract_data_inv _ _ _ _ _ _ _ Hrun) as Heff.
    pose proof Heff as (page & Hapi & Hne & _ & _ & Hdb & _).
    assert (resolved_offset last_id w1 = resolved_offset last_id w) as Hoff.
    { unfold resolved_offset. by rewrite Hdb, checkpoint_value_with_metadata. }
    destruct (Solutions_extract_data_ok api limit last_id w1 page) as [w2 Hrun2];
      [by rewrite Hoff, Hstable | done |].
    pose proof (Solutions_extract_data_inv _ _ _ _ _ _ _ Hrun2) as Heff2.
    destruct (extract_effect_again _ _ _ _ _ _ _ _ _ _ _ Heff Hstable Heff2)
      as (Hp & Hn & Hfs & Hdb2).
    exists w2. rewrite Hrun2, Hp, Hn. done.
Qed.

Lemma extract_data_again_witness :
  ∃ w2,
    Lab.extract_data steady_api 30 None
      (Lab.extract_data steady_api 30 None fresh_world).1
    = (w2, Ok ("pokedex_000.parquet", 30)) ∧
    files w2 = files (Lab.extract_data steady_api 30 None fresh_world).1 ∧
    db w2 = db (Lab.extract_data steady_api 30 None fresh_world).1.
Proof.
  apply (extract_data_again steady_api 30 None fresh_world).
  - reflexivity.
  - vm_compute. reflexivity.
Defined.

(** ** Runs of the drivers *)

Lemma metadata_with_metadata d :
  metadata (with_metadata d) = Some (checkpoint_rows d).
Proof.
  unfold with_metadata, checkpoint_rows.
  by destruct (metadata d) eqn:H; simpl; rewrite ?H.
Qed.

Lemma Lab_transform_data_ok_outcome w w' u :
  Lab.transform_data w = (w', Ok u) → transform_outcome w w'.
Proof.
  intros H. pose proof (Lab_transform_data_outcome w) as Ho. by rewrite H in Ho.
Qed.

Lemma Solutions_transform_data_ok_outcome w w' u :
  Solutions.transform_data w = (w', Ok u) → transform_outcome w w'.
Proof.
  intros H. pose proof (Solutions_transform_data_outcome w) as Ho.
  by rewrite H in Ho.
Qed.

Lemma transform_outcome_summary w w' :
  transform_outcome w w' → is_Some (pokedex (db w)) →
  ∃ rows, pokedex (db w') = Some rows ∧
          pokemon_stats (db w') = Some [summary_of rows].
Proof.
  intros (_ & Hp & Hs & _) [rows Hrows]. exists rows.
  by rewrite Hs, Hp, Hrows.
Qed.

Lemma Lab_main_final api w w' :
  Lab.main api w = (w', Ok tt) → driver_final 30 w w'.
Proof.
  unfold Lab.main, driver_final. intros H.
  step H as w0 u0 H0. apply print_inv in H0 as (Hdb0 & _).
  step H as w1 r1 H1. destruct r1 as [file_path_1 new_last_id_1].
  apply Lab_extract_data_inv in H1 as (page1 & _ & _ & _ & -> & Hdb1 & _).
  step H as w2 r2 H2. destruct r2 as [file_path_2 new_last_id_2].
  apply Lab_extract_data_inv in H2 as (page2 & _ & _ & _ & -> & Hdb2 & _).
  step H as w3 u3 H3. apply print_inv in H3 as (Hdb3 & _).
  step H as w4 u4 H4. destruct u4.
  apply Lab_load_data_inv in H4 as (t1 & new1 & c1 & _ & _ & Hm1 & Hdb4 & _).
  step H as w5 u5 H5. destruct u5.
  apply Lab_load_data_inv in H5 as (t2 & new2 & c2 & _ & _ & Hm2 & Hdb5 & _).
  step H as w6 u6 H6. apply print_inv in H6 as (Hdb6 & _).
  step H as w7 u7 H7. apply Lab_transform_data_ok_outcome in H7 as Hout.
  apply print_inv in H as (Hdb8 & _).
  unfold resolved_offset in *. simpl in *.
  rewrite Hdb3, Hdb2, Hdb1, Hdb0, with_metadata_idemp, metadata_with_metadata in Hm1.
  rewrite Hdb0 in Hdb4, Hdb5.
  rewrite Hdb4 in Hm2. simpl in Hm2. simplify_eq.
  destruct (transform_outcome_summary _ _ Hout) as (rows & Hrows & Hstats).
  { rewrite Hdb6, Hdb5. done. }
  destruct Hout as (Hm7 & _).
  split.
  - unfold checkpoint_rows at 1. rewrite Hdb8, Hm7, Hdb6, Hdb5. done.
  - exists rows. by rewrite Hdb8.
Qed.

Lemma Solutions_main_final api w w' :
  Solutions.main api w = (w', Ok tt) → driver_final 10 w w'.
Proof.
  unfold Solutions.main, driver_final. intros H.
  step H as w0 u0 H0. apply print_inv in H0 as (Hdb0 & _).
  step H as w1 r1 H1. destruct r1 as [file_path_1 new_last_id_1].
  apply Solutions_extract_data_inv in H1 as (page1 & _ & _ & _ & -> & Hdb1 & _).
  step H as w1' u1 H1'. apply print_inv in H1' as (Hdb1' & _).
  step H as w2 r2 H2. destruct r2 as [file_path_2 new_last_id_2].
  apply Solutions_extract_data_inv in H2 as (page2 & _ & _ & _ & -> & Hdb2 & _).
  step H as w3 u3 H3. apply print_inv in H3 as (Hdb3 & _).
  step H as w4 u4 H4. destruct u4.
  apply Solutions_load_data_inv in H4 as (t1 & new1 & c1 & _ & _ & Hm1 & Hdb4 & _).
  step H as w5 u5 H5. destruct u5.
  apply Solutions_load_data_inv in H5 as (t2 & new2 & c2 & _ & _ & Hm2 & Hdb5 & _).
  step H as w6 u6 H6. apply print_inv in H6 as (Hdb6 & _).
  step H as w7 u7 H7. apply Solutions_transform_data_ok_outcome in H7 as Hout.
  apply print_inv in H as (Hdb8 & _).
  unfold resolved_offset in *. simpl in *.
  rewrite Hdb3, Hdb2, Hdb1', Hdb1, Hdb0, with_metadata_idemp,
    metadata_with_metadata in Hm1.
  rewrite Hdb0 in Hdb4, Hdb5.
  rewrite Hdb4 in Hm2. simpl in Hm2. simplify_eq.
  destruct (transform_outcome_summary _ _ Hout) as (rows & Hrows & Hstats).
  { rewrite Hdb6, Hdb5. done. }
  destruct Hout as (Hm7 & _).
  split.
  - unfold checkpoint_rows at 1. rewrite Hdb8, Hm7, Hdb6, Hdb5. done.
  - exists rows. by rewrite Hdb8.
Qed.

Lemma metadata_written_writable B col :
  col = [] ∨ (∃ v, Some v ∈ col) → ∃ v, Some v ∈ metadata_written B col.
Proof.
  intros [->|[v Hv]]; [exists B; left|].
  exists B. unfold metadata_written.
  destruct col as [|x col]; [by apply elem_of_nil in Hv|].
  apply (list_elem_of_fmap_2 (λ v : option Z, (λ _, B) <$> v) _ (Some v)) in Hv.
  done.
Qed.

Lemma driver_final_checkpoint limit w w' :
  driver_final limit w w' →
  checkpoint_writable (db w) →
  checkpoint_value (db w') = checkpoint_value (db w) + limit + limit.
Proof.
  intros [Hrows _] Hw. unfold checkpoint_value at 1. rewrite Hrows.
  apply checkpoint_value_written. right. by apply metadata_written_writable.
Qed.

(** ** C6: the offsets of a run, and the checkpoint *)

(** C6, amended: in a run of the driver that returns, each page is
    requested at an offset, the checkpoint and then the offset the first
    call returned, and written to the file named after that offset; the
    rows loaded from the file are recorded under the offset the call
    returned with the file, which is the offset of the request plus the
    limit, and each load writes that offset as the checkpoint, the
    second over the first. *)
Theorem driver_offsets api w w' :
  (Lab.main api w = (w', Ok tt) →
   driver_effect api lab_file_path 30 w w' ∧
   driver_final 30 w w' ∧
   (checkpoint_writable (db w) →
    checkpoint_value (db w') = checkpoint_value (db w) + 30 + 30)) ∧
  (Solutions.main api w = (w', Ok tt) →
   driver_effect api solutions_file_path 10 w w' ∧
   driver_final 10 w w' ∧
   (checkpoint_writable (db w) →
    checkpoint_value (db w') = checkpoint_value (db w) + 10 + 10)).
Proof.
  split; intros H.
  - pose proof (Lab_main_final _ _ _ H) as Hfinal. split_and!; [|done|].
    + apply Lab_main_inv; [done|]. intros O1 O2. apply file_path_inj.
    + by apply driver_final_checkpoint.
  - pose proof (Solutions_main_final _ _ _ H) as Hfinal. split_and!; [|done|].
    + apply Solutions_main_inv; [done|]. intros O1 O2. apply file_path_inj.
    + by apply driver_final_checkpoint.
Qed.

Lemma driver_offsets_witness :
  driver_effect sample_api lab_file_path 30 fresh_world
    (Lab.main sample_api fresh_world).1 ∧
  driver_final 30 fresh_world (Lab.main sample_api fresh_world).1.
Proof.
  destruct (proj1 (driver_offsets sample_api fresh_world
                     (Lab.main sample_api fresh_world).1))
    as (Heffect & Hfinal & _).
  - vm_compute. reflexivity.
  - split; [exact Heffect | exact Hfinal].
Defined.

(** ** C9: the two scripts against each other *)

(** C9, as stated, fails: the two [transform_data] do not hand the same
    value to their caller, [lab-m1w1.py] returns [None] and
    [solutions.py] the name of the table. *)
Lemma transform_equivalent_fails : ¬ transform_equivalent.
Proof.
  intros H. destruct (H (DuckDB.create_table_pokedex fresh_world).1) as [_ Hret].
  vm_compute in Hret. discriminate.
Qed.

(** C9, amended: on the same world and the same service the two
    [extract_data] send the same request, return the same next offset
    and write the same rows, or raise the same exception; the two
    [load_data], on the same file and offset, and the two
    [transform_data] leave the same database and raise the same
    exception if any.  The scripts differ in the name of the file, the
    offset padded to 3 digits in [lab-m1w1.py] and to 10 in
    [solutions.py]; in the preview of [load_data], 3 rows and 5; in what
    [transform_data] returns, nothing and the name of the table; and in
    the driver, which asks for pages of 30 and prints four lines between
    its steps in [lab-m1w1.py], and asks for pages of 10 and prints five
    in [solutions.py]. *)
Theorem implementations_agree (api : service) (w : world) :
  (∀ limit last_id,
     extract_agree w (Lab.extract_data api limit last_id w)
                     (Solutions.extract_data api limit last_id w)) ∧
  (∀ limit last_id w' path next,
     (Lab.extract_data api limit last_id w = (w', Ok (path, next)) →
      path = "pokedex_" +:+ Py.zfill 3 (Py.str (resolved_offset last_id w))
             +:+ ".parquet") ∧
     (Solutions.extract_data api limit last_id w = (w', Ok (path, next)) →
      path = "pokedex_" +:+ Py.zfill 10 (Py.str (resolved_offset last_id w))
             +:+ ".parquet")) ∧
  (∀ file_path new_last_id,
     store_agree (Lab.load_data file_path new_last_id w)
                 (Solutions.load_data file_path new_last_id w)) ∧
  (∀ file_path new_last_id w',
     (Lab.load_data file_path new_last_id w = (w', Ok tt) →
      load_prints 3 new_last_id w w') ∧
     (Solutions.load_data file_path new_last_id w = (w', Ok tt) →
      load_prints 5 new_last_id w w')) ∧
  store_agree (Lab.transform_data w) (Solutions.transform_data w) ∧
  (is_Some (pokedex (db w)) →
   returned (λ _ : unit, none) (Lab.transform_data w).2 = Ok none ∧
   returned text (Solutions.transform_data w).2 = Ok (text "pokemon_stats")) ∧
  (∀ w', Lab.main api w = (w', Ok tt) →
         driver_effect api lab_file_path 30 w w' ∧
         progress_lines (console w') = (progress_lines (console w) + 4)%nat) ∧
  (∀ w', Solutions.main api w = (w', Ok tt) →
         driver_effect api solutions_file_path 10 w w' ∧
         progress_lines (console w') = (progress_lines (console w) + 5)%nat).
Proof.
  split_and!.
  - intros limit last_id. destruct w as [[m p s] fs gl rq co].
    unfold extract_agree, Lab.extract_data, Solutions.extract_data.
    destruct last_id as [O|]; run_extract; extract_cases api; eauto 10.
  - intros limit last_id w' path next. split.
    + by intros (results & _ & _ & -> & _)%Lab_extract_data_inv.
    + by intros (results & _ & _ & -> & _)%Solutions_extract_data_inv.
  - intros f B. destruct w as [[m p s] fs gl rq co].
    unfold store_agree, Lab.load_data, Solutions.load_data. run_load.
    destruct p as [rows|]; simpl;
      (destruct (DuckDB.read_parquet gl fs f) as [tbl|]; simpl; [|done]);
      (destruct (mapM (DuckDB.select_row B) tbl) as [new|]; simpl; [|done]);
      (destruct m as [col|]; simpl; [|done]);
      (destruct (mapM _ col) as [col'|]; simpl; [|done]);
      destruct col' as [|v col']; simpl; try done;
      destruct (DuckDB.cast_integer B); done.
  - intros f B w'. split;
      [apply Lab_load_data_prints | apply Solutions_load_data_prints].
  - destruct w as [[m p s] fs gl rq co].
    unfold store_agree, Lab.transform_data, Solutions.transform_data, bind, ret,
      print, DuckDB.create_or_replace_pokemon_stats, DuckDB.select_pokemon_stats,
      DuckDB.statement. simpl.
    destruct p as [rows|]; done.
  - destruct w as [[m p s] fs gl rq co]. simpl. intros [rows ->].
    unfold Lab.transform_data, Solutions.transform_data, bind, ret,
      print, DuckDB.create_or_replace_pokemon_stats, DuckDB.select_pokemon_stats,
      DuckDB.statement. simpl. done.
  - intros w' H. split; [|by apply (Lab_main_progress_lines api)].
    apply Lab_main_inv; [done|]. intros O1 O2. apply file_path_inj.
  - intros w' H. split; [|by apply (Solutions_main_progress_lines api)].
    apply Solutions_main_inv; [done|]. intros O1 O2. apply file_path_inj.
Qed.

Lemma implementations_agree_witness :
  progress_lines (console (Lab.main sample_api fresh_world).1) = 4%nat ∧
  progress_lines (console (Solutions.main sample_api fresh_world).1) = 5%nat.
Proof.
  destruct (implementations_agree sample_api fresh_world)
    as (_ & _ & _ & _ & _ & _ & Hlab & Hsol).
  split.
  - apply (Hlab (Lab.main sample_api fresh_world).1). vm_compute. reflexivity.
  - apply (Hsol (Solutions.main sample_api fresh_world).1). vm_compute. reflexivity.
Defined.

(** X11: a run of the driver that returns leaves the summary of the
    rows [pokedex] holds at that moment, and, when the checkpoint was
    without a row or had a value, has moved the checkpoint by the two
    pages it asked for: by 60 in [lab-m1w1.py], by 20 in
    [solutions.py], whatever the number of records the service
    returned. *)
Theorem driver_advances_checkpoint api w w' :
  (Lab.main api w = (w', Ok tt) →
   (∃ rows, pokedex (db w') = Some rows ∧
            pokemon_stats (db w') = Some [summary_of rows]) ∧
   (checkpoint_writable (db w) →
    checkpoint_value (db w') = checkpoint_value (db w) + 60)) ∧
  (Solutions.main api w = (w', Ok tt) →
   (∃ rows, pokedex (db w') = Some rows ∧
            pokemon_stats (db w') = Some [summary_of rows]) ∧
   (checkpoint_writable (db w) →
    checkpoint_value (db w') = checkpoint_value (db w) + 20)).
Proof.
  split; intros H.
  - apply Lab_main_final in H. split; [apply H|]. intros Hw.
    rewrite (driver_final_checkpoint 30 w w' H Hw). lia.
  - apply Solutions_main_final in H. split; [apply H|]. intros Hw.
    rewrite (driver_final_checkpoint 10 w w' H Hw). lia.
Qed.

Lemma driver_advances_checkpoint_witness :
  checkpoint_value (db (Lab.main sample_api fresh_world).1)
  = checkpoint_value (db fresh_world) + 60.
Proof.
  apply (driver_advances_checkpoint sample_api fresh_world).
  - vm_compute. reflexivity.
  - left. reflexivity.
Defined.

(** X12: a second run of the driver takes up where the first stopped:
    when both return and the checkpoint was without a row or had a
    value, the four requests of the two runs are for four consecutive
    pages, starting at the checkpoint the first run found. *)
Theorem driver_resumes api w w1 w2 :
  checkpoint_writable (db w) →
  (Lab.main api w = (w1, Ok tt) → Lab.main api w1 = (w2, Ok tt) →
   requests w2
   = requests w ++ (request_url 30 <$>
                      [checkpoint_value (db w); checkpoint_value (db w) + 30;
                       checkpoint_value (db w) + 60; checkpoint_value (db w) + 90])) ∧
  (Solutions.main api w = (w1, Ok tt) → Solutions.main api w1 = (w2, Ok tt) →
   requests w2
   = requests w ++ (request_url 10 <$>
                      [checkpoint_value (db w); checkpoint_value (db w) + 10;
                       checkpoint_value (db w) + 20; checkpoint_value (db w) + 30])).
Proof.
  intros Hw. split; intros H1 H2.
  - pose proof (driver_final_checkpoint 30 _ _ (Lab_main_final _ _ _ H1) Hw) as Hc.
    apply Lab_main_inv in H1 as (_ & _ & _ & _ & _ & _ & Hrq1 & _);
      [|intros O1 O2; apply file_path_inj].
    apply Lab_main_inv in H2 as (_ & _ & _ & _ & _ & _ & Hrq2 & _);
      [|intros O1 O2; apply file_path_inj].
    rewrite Hrq2, Hrq1, Hc, <- app_assoc. simpl.
    replace (checkpoint_value (db w) + 30 + 30) with (checkpoint_value (db w) + 60)
      by lia.
    replace (checkpoint_value (db w) + 60 + 30) with (checkpoint_value (db w) + 90)
      by lia.
    done.
  - pose proof (driver_final_checkpoint 10 _ _ (Solutions_main_final _ _ _ H1) Hw)
      as Hc.
    apply Solutions_main_inv in H1 as (_ & _ & _ & _ & _ & _ & Hrq1 & _);
      [|intros O1 O2; apply file_path_inj].
    apply Solutions_main_inv in H2 as (_ & _ & _ & _ & _ & _ & Hrq2 & _);
      [|intros O1 O2; apply file_path_inj].
    rewrite Hrq2, Hrq1, Hc, <- app_assoc. simpl.
    replace (checkpoint_value (db w) + 10 + 10) with (checkpoint_value (db w) + 20)
      by lia.
    replace (checkpoint_value (db w) + 20 + 10) with (checkpoint_value (db w) + 30)
      by lia.
    done.
Qed.

Lemma driver_resumes_witness :
  requests (Lab.main steady_api (Lab.main steady_api fresh_world).1).1
  = requests fresh_world
    ++ (request_url 30 <$>
          [checkpoint_value (db fresh_world); checkpoint_value (db fresh_world) + 30;
           checkpoint_value (db fresh_world) + 60;
           checkpoint_value (db fresh_world) + 90]).
Proof.
  apply (driver_resumes steady_api fresh_world (Lab.main steady_api fresh_world).1).
  - left. reflexivity.
  - vm_compute. reflexivity.
  - vm_compute. reflexivity.
Defined.

(** ** Runs of the drivers that raise *)

Ltac never_fetch :=
  first
    [ apply never_raises_bind; [by auto | intros ?; never_fetch]
    | by auto ].

Lemma print_never_raises e e' : never_raises e' (print e).
Proof. intros w. unfold print. simpl. discriminate. Qed.

Lemma Lab_load_data_never_fetch f B :
  never_raises RequestException (Lab.load_data f B).
Proof.
  intros w. unfold Lab.load_data.
  destruct w as [[m p s] fs gl rq co]. run_load.
  destruct p as [rows|]; simpl;
    (destruct (DuckDB.read_parquet gl fs f) as [tbl|]; simpl; [|done]);
    (destruct (mapM (DuckDB.select_row B) tbl) as [new|]; simpl; [|done]);
    (destruct m as [col|]; simpl; [|done]);
    (destruct (mapM _ col) as [col'|]; simpl; [|done]);
    destruct col' as [|v col']; simpl; try done;
    destruct (DuckDB.cast_integer B); done.
Qed.

Lemma Solutions_load_data_never_fetch f B :
  never_raises RequestException (Solutions.load_data f B).
Proof.
  intros w. unfold Solutions.load_data.
  destruct w as [[m p s] fs gl rq co]. run_load.
  destruct p as [rows|]; simpl;
    (destruct (DuckDB.read_parquet gl fs f) as [tbl|]; simpl; [|done]);
    (destruct (mapM (DuckDB.select_row B) tbl) as [new|]; simpl; [|done]);
    (destruct m as [col|]; simpl; [|done]);
    (destruct (mapM _ col) as [col'|]; simpl; [|done]);
    destruct col' as [|v col']; simpl; try done;
    destruct (DuckDB.cast_integer B); done.
Qed.

Lemma Lab_transform_data_never_fetch :
  never_raises RequestException Lab.transform_data.
Proof.
  intros w. unfold Lab.transform_data, bind, print,
    DuckDB.create_or_replace_pokemon_stats, DuckDB.select_pokemon_stats,
    DuckDB.statement.
  destruct w as [[m [rows|] s] fs gl rq co]; simpl; done.
Qed.

Lemma Solutions_transform_data_never_fetch :
  never_raises RequestException Solutions.transform_data.
Proof.
  intros w. unfold Solutions.transform_data, bind, ret, print,
    DuckDB.create_or_replace_pokemon_stats, DuckDB.select_pokemon_stats,
    DuckDB.statement.
  destruct w as [[m [rows|] s] fs gl rq co]; simpl; done.
Qed.

Lemma print_inv_err e w w' (e' : error) : print e w = (w', Err e') → False.
Proof. unfold print. discriminate. Qed.

Lemma Lab_extract_data_db_of api limit last_id w w' r :
  Lab.extract_data api limit last_id w = (w', r) → db w' = with_metadata (db w).
Proof.
  intros H. pose proof (Lab_extract_data_db api limit last_id w) as Hdb.
  by rewrite H in Hdb.
Qed.

Lemma Solutions_extract_data_db_of api limit last_id w w' r :
  Solutions.extract_data api limit last_id w = (w', r) →
  db w' = with_metadata (db w).
Proof.
  intros H. pose proof (Solutions_extract_data_db api limit last_id w) as Hdb.
  by rewrite H in Hdb.
Qed.

(** X13: a run of the driver that ends with the exception of a request
    has not touched a row: both pages are requested before the first is
    loaded, so the database is as it was, but for the table of the
    checkpoint, created without a row where there was none. *)
Theorem driver_fetch_fails api w w' :
  (Lab.main api w = (w', Err RequestException) → db w' = with_metadata (db w)) ∧
  (Solutions.main api w = (w', Err RequestException) →
   db w' = with_metadata (db w)).
Proof.
  pose proof print_never_raises as Hprint.
  pose proof Lab_load_data_never_fetch as Hlab.
  pose proof Solutions_load_data_never_fetch as Hsol.
  pose proof Lab_transform_data_never_fetch as Htl.
  pose proof Solutions_transform_data_never_fetch as Hts.
  split; intros H.
  - unfold Lab.main in H.
    apply bind_inv_err in H as [H|(w0 & u0 & H0 & H)];
      [by apply print_inv_err in H|].
    apply print_inv in H0 as (Hdb0 & _).
    apply bind_inv_err in H as [H|(w1 & [p1 n1] & H1 & H)].
    { apply Lab_extract_data_db_of in H. by rewrite H, Hdb0. }
    apply Lab_extract_data_db_of in H1.
    apply bind_inv_err in H as [H|(w2 & [p2 n2] & H2 & H)].
    { apply Lab_extract_data_db_of in H.
      by rewrite H, H1, Hdb0, with_metadata_idemp. }
    exfalso. revert H.
    match goal with
    | |- ?rest w2 = _ → False =>
        assert (never_raises RequestException rest) as Hrest by never_fetch;
        intros H; apply (Hrest w2); by rewrite H
    end.
  - unfold Solutions.main in H.
    apply bind_inv_err in H as [H|(w0 & u0 & H0 & H)];
      [by apply print_inv_err in H|].
    apply print_inv in H0 as (Hdb0 & _).
    apply bind_inv_err in H as [H|(w1 & [p1 n1] & H1 & H)].
    { apply Solutions_extract_data_db_of in H. by rewrite H, Hdb0. }
    apply Solutions_extract_data_db_of in H1.
    apply bind_inv_err in H as [H|(w1' & u1 & H1' & H)];
      [by apply print_inv_err in H|].
    apply print_inv in H1' as (Hdb1' & _).
    apply bind_inv_err in H as [H|(w2 & [p2 n2] & H2 & H)].
    { apply Solutions_extract_data_db_of in H.
      by rewrite H, Hdb1', H1, Hdb0, with_metadata_idemp. }
    exfalso. revert H.
    match goal with
    | |- ?rest w2 = _ → False =>
        assert (never_raises RequestException rest) as Hrest by never_fetch;
        intros H; apply (Hrest w2); by rewrite H
    end.
Qed.

Lemma driver_fetch_fails_witness :
  db (Lab.main down_api checkpoint_30_world).1 = with_metadata (db checkpoint_30_world).
Proof.
  apply (proj1 (driver_fetch_fails down_api checkpoint_30_world _)).
  vm_compute. reflexivity.
Defined.

Lemma select_rows_None B tbl :
  mapM embedded_id tbl = None → mapM (DuckDB.select_row B) tbl = None.
Proof.
  intros H%mapM_None_1. apply mapM_None_2.
  apply Exists_exists in H as (r & Hr & Hid). apply Exists_exists.
  exists r. split; [done|].
  destruct (DuckDB.select_row B r) as [row|] eqn:Hrow; [|done].
  apply select_row_Some in Hrow as (_ & id & Hid' & _). congruence.
Qed.

Lemma print_run e w :
  print e w = ({| db := db w; files := files w; glob := glob w;
                requests := requests w;
                  console := console w ++ [e] |}, Ok tt).
Proof. reflexivity. Qed.

(** What is in the database when the second load of a run raised the
    conversion error: the rows of the first page and its offset. *)
Lemma second_load_fails (load1 load2 : M unit) f1 f2 B1 B2 w3 w4 page1 page2 ids1 :
  load1 w3 = (w4, Ok tt) →
  load_effect w3 w4 f1 B1 →
  read_file w3 f1 = Some page1 →
  read_file w3 f2 = Some page2 →
  mapM embedded_id page1 = Some ids1 →
  mapM embedded_id page2 = None →
  (∀ w, read_file w f2 = Some page2 → conversion_fails w (load2 w)) →
  (∀ w, pokedex (db (load2 w).1)
        = Some (default [] (pokedex (db w)) ++ appended f2 B2 w)) →
  ∀ (k : unit → M unit),
  ∃ w', bind load1 (λ _, bind load2 k) w3 = (w', Err ConversionException) ∧
        pokedex (db w')
        = Some (default [] (pokedex (db w3)) ++ zip_with (tagged B1) page1 ids1) ∧
        checkpoint_rows (db w') = metadata_written B1 (checkpoint_rows (db w3)) ∧
        pokemon_stats (db w') = pokemon_stats (db w3).
Proof.
  intros H1 (t1 & new1 & c1 & Ht1 & Hnew1 & Hm1 & Hdb4 & Hfs4 & _ & Hgl4)
    Hf1 Hf2 Hids1 Hnone Hfails Hrows k.
  simplify_eq.
  apply select_rows_Some in Hnew1 as (ids & Hids & -> & _). simplify_eq.
  rewrite (bind_ok _ _ _ _ _ H1).
  assert (read_file w4 f2 = Some page2) as Hf2'
    by (unfold read_file in *; by rewrite Hfs4, Hgl4).
  destruct (Hfails w4 Hf2') as (Herr & _ & Hm & Hs).
  specialize (Hrows w4). unfold appended in Hrows.
  rewrite Hf2' in Hrows. simpl in Hrows.
  rewrite (select_rows_None B2 _ Hnone) in Hrows. simpl in Hrows.
  rewrite app_nil_r in Hrows.
  destruct (load2 w4) as [w5 r] eqn:H2. simpl in *. subst r.
  exists w5. rewrite (bind_err _ _ _ _ _ H2). split_and!; [done|..].
  - by rewrite Hrows, Hdb4.
  - unfold checkpoint_rows. by rewrite Hm, Hdb4, Hm1.
  - by rewrite Hs, Hdb4.
Qed.

Lemma Lab_main_second_load_fails api w page1 page2 ids1 :
  api (requests w) (request_url 30 (checkpoint_value (db w))) = Some page1 →
  api (requests w ++ [request_url 30 (checkpoint_value (db w))])
      (request_url 30 (checkpoint_value (db w) + 30)) = Some page2 →
  mapM embedded_id page1 = Some ids1 →
  page1 ≠ [] →
  mapM embedded_id page2 = None →
  in_int32 (checkpoint_value (db w) + 30) →
  ∃ w', Lab.main api w = (w', Err ConversionException) ∧
        pokedex (db w')
        = Some (default [] (pokedex (db w))
                ++ zip_with (tagged (checkpoint_value (db w) + 30)) page1 ids1) ∧
        checkpoint_rows (db w')
        = metadata_written (checkpoint_value (db w) + 30) (checkpoint_rows (db w)) ∧
        pokemon_stats (db w') = pokemon_stats (db w).
Proof.
  intros Hapi1 Hapi2 Hids1 Hne1 Hnone HB.
  assert (page2 ≠ []) as Hne2 by (by intros ->).
  unfold Lab.main. rewrite (bind_ok _ _ _ _ _ (print_run _ _)).
  set (w0 := {| db := db w; files := files w; glob := glob w;
                requests := requests w;
                console := console w ++ [progress] |}).
  destruct (Lab_extract_data_ok api 30 None w0 page1 Hapi1 Hne1) as [w1 H1].
  rewrite (bind_ok _ _ _ _ _ H1). cbv beta iota.
  apply Lab_extract_data_inv in H1 as (p1 & Hp1 & _ & _ & _ & Hdb1 & Hfs1 & Hrq1 & Hgl1).
  unfold resolved_offset in *. simpl in *. simplify_eq.
  set (O := checkpoint_value (db w)) in *.
  assert (api (requests w1) (request_url 30 (resolved_offset (Some (O + 30)) w1))
          = Some page2) as Hapi2' by (by rewrite Hrq1).
  destruct (Lab_extract_data_ok api 30 (Some (O + 30)) w1 page2 Hapi2' Hne2)
    as [w2 H2].
  rewrite (bind_ok _ _ _ _ _ H2). cbv beta iota.
  apply Lab_extract_data_inv in H2 as (p2 & Hp2 & _ & _ & _ & Hdb2 & Hfs2 & Hrq2 & Hgl2).
  unfold resolved_offset in *. simpl in *. rewrite Hrq1 in Hp2. simplify_eq.
  rewrite (bind_ok _ _ _ _ _ (print_run _ _)).
  set (w3 := {| db := db w2; files := files w2; glob := glob w2;
                requests := requests w2;
                console := console w2 ++ [progress] |}).
  assert (read_file w3 (lab_file_path O) = Some page1) as Hf1.
  { rewrite read_lab_file_path. simpl.
    rewrite Hfs2, Hfs1, lookup_insert_ne, lookup_insert_eq; [done|].
    intros Heq%file_path_inj. lia. }
  assert (read_file w3 (lab_file_path (O + 30)) = Some page2) as Hf2.
  { rewrite read_lab_file_path. simpl. by rewrite Hfs2, lookup_insert_eq. }
  assert (db w3 = with_metadata (db w)) as Hdb3.
  { simpl. by rewrite Hdb2, Hdb1, with_metadata_idemp. }
  destruct (Lab_load_data_ok (lab_file_path O) (O + 30) w3) as [w4 H4].
  { split; [|split; [rewrite Hdb3; apply is_Some_with_metadata | exact HB]].
    exists page1. split; [done|].
    by rewrite (select_rows_in_range _ _ _ HB Hids1). }
  destruct (second_load_fails _ (Lab.load_data (lab_file_path (O + 30)) (O + 30 + 30))
              _ _ _ (O + 30 + 30) _ _ _ _ _ H4
              (Lab_load_data_inv _ _ _ _ H4) Hf1 Hf2 Hids1 Hnone)
    with (k := λ _ : unit, bind (print progress)
                 (λ _, bind Lab.transform_data (λ _, print progress)))
    as (w' & Hrun & Hp & Hm & Hs).
  { intros w5 Hf. apply (load_data_conversion_fails _ _ _ page2 Hf).
    by apply select_rows_None. }
  { intros w5. apply Lab_load_data_pokedex. }
  exists w'. split; [exact Hrun|].
  rewrite Hp, Hm, Hs, Hdb3, pokedex_with_metadata. split_and!; [done| |].
  - unfold checkpoint_rows. by rewrite metadata_with_metadata.
  - unfold with_metadata. by destruct (metadata (db w)).
Qed.

Lemma Solutions_main_second_load_fails api w page1 page2 ids1 :
  api (requests w) (request_url 10 (checkpoint_value (db w))) = Some page1 →
  api (requests w ++ [request_url 10 (checkpoint_value (db w))])
      (request_url 10 (checkpoint_value (db w) + 10)) = Some page2 →
  mapM embedded_id page1 = Some ids1 →
  page1 ≠ [] →
  mapM embedded_id page2 = None →
  in_int32 (checkpoint_value (db w) + 10) →
  ∃ w', Solutions.main api w = (w', Err ConversionException) ∧
        pokedex (db w')
        = Some (default [] (pokedex (db w))
                ++ zip_with (tagged (checkpoint_value (db w) + 10)) page1 ids1) ∧
        checkpoint_rows (db w')
        = metadata_written (checkpoint_value (db w) + 10) (checkpoint_rows (db w)) ∧
        pokemon_stats (db w') = pokemon_stats (db w).
Proof.
  intros Hapi1 Hapi2 Hids1 Hne1 Hnone HB.
  assert (page2 ≠ []) as Hne2 by (by intros ->).
  unfold Solutions.main. rewrite (bind_ok _ _ _ _ _ (print_run _ _)).
  set (w0 := {| db := db w; files := files w; glob := glob w;
                requests := requests w;
                console := console w ++ [progress] |}).
  destruct (Solutions_extract_data_ok api 10 None w0 page1 Hapi1 Hne1) as [w1 H1].
  rewrite (bind_ok _ _ _ _ _ H1). cbv beta iota.
  apply Solutions_extract_data_inv in H1 as (p1 & Hp1 & _ & _ & _ & Hdb1 & Hfs1 & Hrq1 & Hgl1).
  unfold resolved_offset in *. simpl in *. simplify_eq.
  set (O := checkpoint_value (db w)) in *.
  rewrite (bind_ok _ _ _ _ _ (print_run _ _)).
  set (w1' := {| db := db w1; files := files w1; glob := glob w1;
                requests := requests w1;
                 console := console w1 ++ [progress] |}).
  assert (api (requests w1') (request_url 10 (resolved_offset (Some (O + 10)) w1'))
          = Some page2) as Hapi2' by (simpl; by rewrite Hrq1).
  destruct (Solutions_extract_data_ok api 10 (Some (O + 10)) w1' page2 Hapi2' Hne2)
    as [w2 H2].
  rewrite (bind_ok _ _ _ _ _ H2). cbv beta iota.
  apply Solutions_extract_data_inv in H2 as (p2 & Hp2 & _ & _ & _ & Hdb2 & Hfs2 & Hrq2 & Hgl2).
  unfold resolved_offset in *. simpl in *. rewrite Hrq1 in Hp2. simplify_eq.
  rewrite (bind_ok _ _ _ _ _ (print_run _ _)).
  set (w3 := {| db := db w2; files := files w2; glob := glob w2;
                requests := requests w2;
                console := console w2 ++ [progress] |}).
  assert (read_file w3 (solutions_file_path O) = Some page1) as Hf1.
  { rewrite read_solutions_file_path. simpl.
    rewrite Hfs2, Hfs1, lookup_insert_ne, lookup_insert_eq; [done|].
    intros Heq%file_path_inj. lia. }
  assert (read_file w3 (solutions_file_path (O + 10)) = Some page2) as Hf2.
  { rewrite read_solutions_file_path. simpl. by rewrite Hfs2, lookup_insert_eq. }
  assert (db w3 = with_metadata (db w)) as Hdb3.
  { simpl. by rewrite Hdb2, Hdb1, with_metadata_idemp. }
  destruct (Solutions_load_data_ok (solutions_file_path O) (O + 10) w3) as [w4 H4].
  { split; [|split; [rewrite Hdb3; apply is_Some_with_metadata | exact HB]].
    exists page1. split; [done|].
    by rewrite (select_rows_in_range _ _ _ HB Hids1). }
  destruct (second_load_fails _ (Solutions.load_data (solutions_file_path (O + 10)) (O + 10 + 10))
              _ _ _ (O + 10 + 10) _ _ _ _ _ H4
              (Solutions_load_data_inv _ _ _ _ H4) Hf1 Hf2 Hids1 Hnone)
    with (k := λ _ : unit, bind (print progress)
                 (λ _, bind Solutions.transform_data (λ _, print progress)))
    as (w' & Hrun & Hp & Hm & Hs).
  { intros w5 Hf. apply (load_data_conversion_fails _ _ _ page2 Hf).
    by apply select_rows_None. }
  { intros w5. apply Solutions_load_data_pokedex. }
  exists w'. split; [exact Hrun|].
  rewrite Hp, Hm, Hs, Hdb3, pokedex_with_metadata. split_and!; [done| |].
  - unfold checkpoint_rows. by rewrite metadata_with_metadata.
  - unfold with_metadata. by destruct (metadata (db w)).
Qed.

(** X14: the driver does not undo the first load when the second
    fails.  When the first page converts and a record of the second
    does not, the run ends with the conversion error; the rows of the
    first page are in [pokedex] and the checkpoint is written with the
    offset of the second page, so that the next run asks for the second
    page again.  The summary is not computed. *)
Theorem driver_second_load_fails api w page1 page2 ids1 :
  mapM embedded_id page1 = Some ids1 →
  page1 ≠ [] →
  mapM embedded_id page2 = None →
  (api (requests w) (request_url 30 (checkpoint_value (db w))) = Some page1 →
   api (requests w ++ [request_url 30 (checkpoint_value (db w))])
       (request_url 30 (checkpoint_value (db w) + 30)) = Some page2 →
   in_int32 (checkpoint_value (db w) + 30) →
   ∃ w', Lab.main api w = (w', Err ConversionException) ∧
         first_page_committed 30 page1 ids1 w w') ∧
  (api (requests w) (request_url 10 (checkpoint_value (db w))) = Some page1 →
   api (requests w ++ [request_url 10 (checkpoint_value (db w))])
       (request_url 10 (checkpoint_value (db w) + 10)) = Some page2 →
   in_int32 (checkpoint_value (db w) + 10) →
   ∃ w', Solutions.main api w = (w', Err ConversionException) ∧
         first_page_committed 10 page1 ids1 w w').
Proof.
  intros Hids1 Hne1 Hnone. split; intros Hapi1 Hapi2 HB.
  - by apply Lab_main_second_load_fails with (page2 := page2).
  - by apply Solutions_main_second_load_fails with (page2 := page2).
Qed.

Lemma driver_second_load_fails_witness :
  ∃ w', Lab.main flawed_api fresh_world = (w', Err ConversionException) ∧
        first_page_committed 30 [bulbasaur; ivysaur] [Some 1; Some 2] fresh_world w'.
Proof.
  apply (driver_second_load_fails flawed_api fresh_world
           [bulbasaur; ivysaur] [venusaur; nameless] [Some 1; Some 2]).
  - vm_compute. reflexivity.
  - discriminate.
  - vm_compute. reflexivity.
  - reflexivity.
  - reflexivity.
  - vm_compute. split; discriminate.
Defined.

(** ** Runs of the drivers that return *)

Lemma Lab_transform_data_ok w :
  is_Some (pokedex (db w)) → ∃ w', Lab.transform_data w = (w', Ok tt).
Proof.
  intros [rows Hrows]. destruct (transform_data_run w rows Hrows) as [(w' & H & _) _].
  eauto.
Qed.

Lemma Solutions_transform_data_ok w :
  is_Some (pokedex (db w)) →
  ∃ w', Solutions.transform_data w = (w', Ok "pokemon_stats").
Proof.
  intros [rows Hrows]. destruct (transform_data_run w rows Hrows) as [_ (w' & H & _)].
  eauto.
Qed.

Lemma Lab_main_returns api w page1 page2 ids1 ids2 :
  api (requests w) (request_url 30 (checkpoint_value (db w))) = Some page1 →
  api (requests w ++ [request_url 30 (checkpoint_value (db w))])
      (request_url 30 (checkpoint_value (db w) + 30)) = Some page2 →
  mapM embedded_id page1 = Some ids1 →
  mapM embedded_id page2 = Some ids2 →
  page1 ≠ [] → page2 ≠ [] →
  in_int32 (checkpoint_value (db w) + 30) →
  in_int32 (checkpoint_value (db w) + 30 + 30) →
  ∃ w', Lab.main api w = (w', Ok tt).
Proof.
  intros Hapi1 Hapi2 Hids1 Hids2 Hne1 Hne2 HB1 HB2.
  unfold Lab.main. rewrite (bind_ok _ _ _ _ _ (print_run _ _)).
  set (w0 := {| db := db w; files := files w; glob := glob w;
                requests := requests w;
                console := console w ++ [progress] |}).
  destruct (Lab_extract_data_ok api 30 None w0 page1 Hapi1 Hne1) as [w1 H1].
  rewrite (bind_ok _ _ _ _ _ H1). cbv beta iota.
  apply Lab_extract_data_inv in H1 as (p1 & Hp1 & _ & _ & _ & Hdb1 & Hfs1 & Hrq1 & Hgl1).
  unfold resolved_offset in *. simpl in *. simplify_eq.
  set (O := checkpoint_value (db w)) in *.
  assert (api (requests w1) (request_url 30 (resolved_offset (Some (O + 30)) w1))
          = Some page2) as Hapi2' by (by rewrite Hrq1).
  destruct (Lab_extract_data_ok api 30 (Some (O + 30)) w1 page2 Hapi2' Hne2)
    as [w2 H2].
  rewrite (bind_ok _ _ _ _ _ H2). cbv beta iota.
  apply Lab_extract_data_inv in H2 as (p2 & Hp2 & _ & _ & _ & Hdb2 & Hfs2 & Hrq2 & Hgl2).
  unfold resolved_offset in *. simpl in *. rewrite Hrq1 in Hp2. simplify_eq.
  rewrite (bind_ok _ _ _ _ _ (print_run _ _)).
  set (w3 := {| db := db w2; files := files w2; glob := glob w2;
                requests := requests w2;
                console := console w2 ++ [progress] |}).
  assert (read_file w3 (lab_file_path O) = Some page1) as Hf1.
  { rewrite read_lab_file_path. simpl.
    rewrite Hfs2, Hfs1, lookup_insert_ne, lookup_insert_eq; [done|].
    intros Heq%file_path_inj. lia. }
  assert (read_file w3 (lab_file_path (O + 30)) = Some page2) as Hf2.
  { rewrite read_lab_file_path. simpl. by rewrite Hfs2, lookup_insert_eq. }
  assert (db w3 = with_metadata (db w)) as Hdb3.
  { simpl. by rewrite Hdb2, Hdb1, with_metadata_idemp. }
  destruct (Lab_load_data_ok (lab_file_path O) (O + 30) w3) as [w4 H4].
  { split; [|split; [rewrite Hdb3; apply is_Some_with_metadata | exact HB1]].
    exists page1. split; [done|].
    by rewrite (select_rows_in_range _ _ _ HB1 Hids1). }
  rewrite (bind_ok _ _ _ _ _ H4).
  apply Lab_load_data_inv in H4
    as (t1 & new1 & c1 & _ & _ & _ & Hdb4 & Hfs4 & _ & Hgl4).
  destruct (Lab_load_data_ok (lab_file_path (O + 30)) (O + 30 + 30) w4) as [w5 H5].
  { split; [|split; [by rewrite Hdb4 | exact HB2]].
    exists page2. split; [unfold read_file in *; by rewrite Hfs4, Hgl4|].
    by rewrite (select_rows_in_range _ _ _ HB2 Hids2). }
  rewrite (bind_ok _ _ _ _ _ H5).
  apply Lab_load_data_inv in H5 as (t2 & new2 & c2 & _ & _ & _ & Hdb5 & _).
  rewrite (bind_ok _ _ _ _ _ (print_run _ _)).
  match goal with
  | |- context [ bind Lab.transform_data _ ?w6 ] =>
      destruct (Lab_transform_data_ok w6) as [w7 H7]; [simpl; by rewrite Hdb5|];
      rewrite (bind_ok _ _ _ _ _ H7)
  end.
  rewrite print_run. eauto.
Qed.

Lemma Solutions_main_returns api w page1 page2 ids1 ids2 :
  api (requests w) (request_url 10 (checkpoint_value (db w))) = Some page1 →
  api (requests w ++ [request_url 10 (checkpoint_value (db w))])
      (request_url 10 (checkpoint_value (db w) + 10)) = Some page2 →
  mapM embedded_id page1 = Some ids1 →
  mapM embedded_id page2 = Some ids2 →
  page1 ≠ [] → page2 ≠ [] →
  in_int32 (checkpoint_value (db w) + 10) →
  in_int32 (checkpoint_value (db w) + 10 + 10) →
  ∃ w', Solutions.main api w = (w', Ok tt).
Proof.
  intros Hapi1 Hapi2 Hids1 Hids2 Hne1 Hne2 HB1 HB2.
  unfold Solutions.main. rewrite (bind_ok _ _ _ _ _ (print_run _ _)).
  set (w0 := {| db := db w; files := files w; glob := glob w;
                requests := requests w;
                console := console w ++ [progress] |}).
  destruct (Solutions_extract_data_ok api 10 None w0 page1 Hapi1 Hne1) as [w1 H1].
  rewrite (bind_ok _ _ _ _ _ H1). cbv beta iota.
  apply Solutions_extract_data_inv in H1 as (p1 & Hp1 & _ & _ & _ & Hdb1 & Hfs1 & Hrq1 & Hgl1).
  unfold resolved_offset in *. simpl in *. simplify_eq.
  set (O := checkpoint_value (db w)) in *.
  rewrite (bind_ok _ _ _ _ _ (print_run _ _)).
  set (w1' := {| db := db w1; files := files w1; glob := glob w1;
                requests := requests w1;
                 console := console w1 ++ [progress] |}).
  assert (api (requests w1') (request_url 10 (resolved_offset (Some (O + 10)) w1'))
          = Some page2) as Hapi2' by (simpl; by rewrite Hrq1).
  destruct (Solutions_extract_data_ok api 10 (Some (O + 10)) w1' page2 Hapi2' Hne2)
    as [w2 H2].
  rewrite (bind_ok _ _ _ _ _ H2). cbv beta iota.
  apply Solutions_extract_data_inv in H2 as (p2 & Hp2 & _ & _ & _ & Hdb2 & Hfs2 & Hrq2 & Hgl2).
  unfold resolved_offset in *. simpl in *. rewrite Hrq1 in Hp2. simplify_eq.
  rewrite (bind_ok _ _ _ _ _ (print_run _ _)).
  set (w3 := {| db := db w2; files := files w2; glob := glob w2;
                requests := requests w2;
                console := console w2 ++ [progress] |}).
  assert (read_file w3 (solutions_file_path O) = Some page1) as Hf1.
  { rewrite read_solutions_file_path. simpl.
    rewrite Hfs2, Hfs1, lookup_insert_ne, lookup_insert_eq; [done|].
    intros Heq%file_path_inj. lia. }
  assert (read_file w3 (solutions_file_path (O + 10)) = Some page2) as Hf2.
  { rewrite read_solutions_file_path. simpl. by rewrite Hfs2, lookup_insert_eq. }
  assert (db w3 = with_metadata (db w)) as Hdb3.
  { simpl. by rewrite Hdb2, Hdb1, with_metadata_idemp. }
  destruct (Solutions_load_data_ok (solutions_file_path O) (O + 10) w3) as [w4 H4].
  { split; [|split; [rewrite Hdb3; apply is_Some_with_metadata | exact HB1]].
    exists page1. split; [done|].
    by rewrite (select_rows_in_range _ _ _ HB1 Hids1). }
  rewrite (bind_ok _ _ _ _ _ H4).
  apply Solutions_load_data_inv in H4
    as (t1 & new1 & c1 & _ & _ & _ & Hdb4 & Hfs4 & _ & Hgl4).
  destruct (Solutions_load_data_ok (solutions_file_path (O + 10)) (O + 10 + 10) w4) as [w5 H5].
  { split; [|split; [by rewrite Hdb4 | exact HB2]].
    exists page2. split; [unfold read_file in *; by rewrite Hfs4, Hgl4|].
    by rewrite (select_rows_in_range _ _ _ HB2 Hids2). }
  rewrite (bind_ok _ _ _ _ _ H5).
  apply Solutions_load_data_inv in H5 as (t2 & new2 & c2 & _ & _ & _ & Hdb5 & _).
  rewrite (bind_ok _ _ _ _ _ (print_run _ _)).
  match goal with
  | |- context [ bind Solutions.transform_data _ ?w6 ] =>
      destruct (Solutions_transform_data_ok w6) as [w7 H7]; [simpl; by rewrite Hdb5|];
      rewrite (bind_ok _ _ _ _ _ H7)
  end.
  rewrite print_run. eauto.
Qed.

(** X15: the driver returns when the service answers both requests with
    a page that is not empty, every record of both pages has a locator
    that is NULL or has a number that fits an [INTEGER], and the two
    offsets to record fit as well; nothing else is asked of the
    database or of the disk. *)
Theorem driver_returns api w page1 page2 ids1 ids2 :
  mapM embedded_id page1 = Some ids1 →
  mapM embedded_id page2 = Some ids2 →
  page1 ≠ [] → page2 ≠ [] →
  (api (requests w) (request_url 30 (checkpoint_value (db w))) = Some page1 →
   api (requests w ++ [request_url 30 (checkpoint_value (db w))])
       (request_url 30 (checkpoint_value (db w) + 30)) = Some page2 →
   in_int32 (checkpoint_value (db w) + 30) →
   in_int32 (checkpoint_value (db w) + 30 + 30) →
   ∃ w', Lab.main api w = (w', Ok tt)) ∧
  (api (requests w) (request_url 10 (checkpoint_value (db w))) = Some page1 →
   api (requests w ++ [request_url 10 (checkpoint_value (db w))])
       (request_url 10 (checkpoint_value (db w) + 10)) = Some page2 →
   in_int32 (checkpoint_value (db w) + 10) →
   in_int32 (checkpoint_value (db w) + 10 + 10) →
   ∃ w', Solutions.main api w = (w', Ok tt)).
Proof.
  intros Hids1 Hids2 Hne1 Hne2. split; intros Hapi1 Hapi2 HB1 HB2.
  - by eapply Lab_main_returns.
  - by eapply Solutions_main_returns.
Qed.

Lemma driver_returns_witness :
  ∃ w', Solutions.main sample_api fresh_world = (w', Ok tt).
Proof.
  apply (driver_returns sample_api fresh_world
           [bulbasaur; ivysaur] [venusaur] [Some 1; Some 2] [Some 3]).
  - vm_compute. reflexivity.
  - vm_compute. reflexivity.
  - discriminate.
  - discriminate.
  - reflexivity.
  - reflexivity.
  - vm_compute. split; discriminate.
  - vm_compute. split; discriminate.
Defined.

(** ** One cycle, and the summary between cycles *)

(** X16: a call of [extract_data] followed by [load_data] on what it
    returned puts the records the service answered into [pokedex], in
    the order of the answer and under the next offset; when the
    checkpoint was without a row or had a value, the checkpoint is then
    that next offset, so that a further [extract_data] without an
    offset goes on from there. *)
Theorem extract_then_load api limit last_id w w1 w2 path next :
  (Lab.extract_data api limit last_id w = (w1, Ok (path, next)) ∧
   Lab.load_data path next w1 = (w2, Ok tt)) ∨
  (Solutions.extract_data api limit last_id w = (w1, Ok (path, next)) ∧
   Solutions.load_data path next w1 = (w2, Ok tt)) →
  ∃ page ids,
    api (requests w) (request_url limit (resolved_offset last_id w)) = Some page ∧
    mapM embedded_id page = Some ids ∧
    pokedex (db w2)
    = Some (default [] (pokedex (db w)) ++ zip_with (tagged next) page ids) ∧
    (checkpoint_writable (db w) →
     snd (read_checkpoint w2) = Ok next ∧
     resolved_offset None w2 = resolved_offset last_id w + limit).
Proof.
  intros H.
  assert (∃ file_path_of,
             extract_effect api file_path_of limit last_id w w1 path next ∧
             load_effect w1 w2 path next ∧
             ∀ O w, read_file w (file_path_of O) = files w !! file_path_of O)
    as (fp & Hex & Hload & Hread).
  { destruct H as [[H1 H2]|[H1 H2]].
    - exists lab_file_path. split_and!;
        [by apply Lab_extract_data_inv | by apply Lab_load_data_inv
        | intros; apply read_lab_file_path].
    - exists solutions_file_path. split_and!;
        [by apply Solutions_extract_data_inv | by apply Solutions_load_data_inv
        | intros; apply read_solutions_file_path]. }
  destruct Hex as (page & Hapi & _ & Hpath & Hnext & Hdb1 & Hfs1 & _).
  destruct Hload as (tbl & new & col & Htbl & Hnew & Hm & Hdb2 & _).
  rewrite Hpath, Hread, <- Hpath in Htbl.
  rewrite Hfs1, lookup_insert_eq in Htbl. simplify_eq.
  apply select_rows_Some in Hnew as (ids & Hids & -> & _).
  exists tbl, ids. split_and!; try done.
  - by rewrite Hdb2, Hdb1, pokedex_with_metadata.
  - intros Hw. rewrite Hdb1, metadata_with_metadata in Hm. simplify_eq.
    assert (checkpoint_value (db w2)
            = resolved_offset last_id w + limit) as Hc.
    { unfold checkpoint_value, checkpoint_rows. rewrite Hdb2. simpl.
      by apply checkpoint_value_written. }
    split; [by rewrite read_checkpoint_value, Hc | exact Hc].
Qed.

Lemma extract_then_load_witness :
  ∃ page ids,
    sample_api (requests fresh_world)
      (request_url 30 (resolved_offset None fresh_world)) = Some page ∧
    mapM embedded_id page = Some ids ∧
    pokedex (db (Lab.load_data "pokedex_000.parquet" 30
                   (Lab.extract_data sample_api 30 None fresh_world).1).1)
    = Some (default [] (pokedex (db fresh_world)) ++ zip_with (tagged 30) page ids) ∧
    (checkpoint_writable (db fresh_world) →
     snd (read_checkpoint
            (Lab.load_data "pokedex_000.parquet" 30
               (Lab.extract_data sample_api 30 None fresh_world).1).1) = Ok 30 ∧
     resolved_offset None
       (Lab.load_data "pokedex_000.parquet" 30
          (Lab.extract_data sample_api 30 None fresh_world).1).1
     = resolved_offset None fresh_world + 30).
Proof.
  apply (extract_then_load sample_api 30 None fresh_world
           (Lab.extract_data sample_api 30 None fresh_world).1
           (Lab.load_data "pokedex_000.parquet" 30
              (Lab.extract_data sample_api 30 None fresh_world).1).1
           "pokedex_000.parquet" 30).
  left. split; vm_compute; reflexivity.
Defined.

(** X17: [load_data] leaves the summary as it is: after
    [transform_data] and a load of a file that is not empty, the count
    of the summary is below the number of rows of [pokedex], by the
    number of records of the file, until [transform_data] is called
    again. *)
Theorem summary_behind_after_load f B w w1 w2 tbl :
  (∃ u, Lab.transform_data w = (w1, Ok u)) ∨
  (∃ u, Solutions.transform_data w = (w1, Ok u)) →
  loads f B w1 w2 →
  read_file w f = Some tbl →
  ∃ s rows,
    pokemon_stats (db w2) = Some [s] ∧
    pokedex (db w2) = Some rows ∧
    total_pokemon s + Z.of_nat (length tbl) = DuckDB.COUNT rows.
Proof.
  intros Ht Hload Hf.
  assert (transform_outcome w w1 ∧ is_Some (pokedex (db w)) ∧
          read_file w1 f = read_file w f) as (Hout & Hsome & Hread).
  { destruct Ht as [[u H]|[u H]].
    - split_and!; [by eapply Lab_transform_data_ok_outcome| |].
      + destruct (pokedex (db w)) eqn:Hp; [done|].
        apply transform_data_no_pokedex in Hp as [Hp _]. congruence.
      + apply Lab_transform_data_inv in H as (_ & _ & Hfs & _ & Hgl).
        unfold read_file. by rewrite Hfs, Hgl.
    - split_and!; [by eapply Solutions_transform_data_ok_outcome| |].
      + destruct (pokedex (db w)) eqn:Hp; [done|].
        apply transform_data_no_pokedex in Hp as [_ Hp]. congruence.
      + apply Solutions_transform_data_inv in H as (_ & _ & Hfs & _ & Hgl).
        unfold read_file. by rewrite Hfs, Hgl. }
  destruct Hsome as [rows Hrows].
  destruct Hout as (_ & Hp1 & Hs1 & _).
  apply loads_effect in Hload as (t & new & col & Ht' & Hnew & _ & Hdb2 & _).
  rewrite Hread, Hf in Ht'. simplify_eq.
  apply length_mapM in Hnew.
  exists (summary_of rows), (rows ++ new). rewrite Hdb2. simpl.
  rewrite Hs1, Hp1, Hrows. split_and!; try done.
  unfold DuckDB.COUNT. rewrite length_app. lia.
Qed.

Lemma summary_behind_after_load_witness :
  ∃ s rows,
    pokemon_stats
      (db (Lab.load_data "pokedex_030.parquet" 60
             (Lab.transform_data
                (Lab.load_data "pokedex_000.parquet" 30 two_pages_world).1).1).1)
    = Some [s] ∧
    pokedex
      (db (Lab.load_data "pokedex_030.parquet" 60
             (Lab.transform_data
                (Lab.load_data "pokedex_000.parquet" 30 two_pages_world).1).1).1)
    = Some rows ∧
    total_pokemon s + Z.of_nat (length [venusaur]) = DuckDB.COUNT rows.
Proof.
  apply (summary_behind_after_load "pokedex_030.parquet" 60
           (Lab.load_data "pokedex_000.parquet" 30 two_pages_world).1
           (Lab.transform_data
              (Lab.load_data "pokedex_000.parquet" 30 two_pages_world).1).1).
  - left. exists tt. vm_compute. reflexivity.
  - left. vm_compute. reflexivity.
  - vm_compute. reflexivity.
Defined.

(** ** Paths that are not plain names *)



(** Another spelling of a name reads the file of that name. *)
Example load_data_other_spelling :
  pokedex (db (Lab.load_data "./pokedex_000.parquet" 30 pattern_world).1)
  = Some [tagged 30 bulbasaur (Some 1); tagged 30 ivysaur (Some 2)].
Proof. vm_compute. reflexivity. Qed.
